(** * shard: the SLEIGH session adapter and the BFD accessors

    A shallow embedding of [deps/sleigh/arbitrary_manager.cc] and of
    [src/tabled/local-bfd.h].  Unsigned 64-bit quantities are integers in
    [Z] reduced with [to_u64] wherever the C++ arithmetic can wrap; byte
    buffers are lists indexed with stdpp's lookup and insert; raw memory
    accesses are fallible.  The decoding engine (ghidra::Sleigh) is not part
    of the repository: it is an interface the session is parameterised by. *)

From Stdlib Require Import ZArith Lia String Ascii.
From stdpp Require Import base list.

Local Open Scope Z_scope.

(** ** Machine integers *)

Definition UINT64_MAX : Z := 0xffffffffffffffff.

(** Conversion to [uint64_t]: reduction modulo 2^64 (also the result of
    converting a negative [int32_t]). *)
Definition to_u64 (z : Z) : Z := z mod 2 ^ 64.

Definition is_u64 (z : Z) : Prop := 0 <= z < 2 ^ 64.
Definition is_i32 (z : Z) : Prop := - 2 ^ 31 <= z < 2 ^ 31.

(** ** Raw memory accesses

    A read or write through a pointer either succeeds or falls outside the
    object it points into; a loop is run with a bound on its iterations. *)

Inductive outcome (A : Type) : Type :=
| Ok (a : A)
| Fault          (* access outside the pointed-to buffer *)
| Timeout.       (* iteration bound exhausted *)
Arguments Ok {A} a.
Arguments Fault {A}.
Arguments Timeout {A}.

#[global] Instance outcome_ret : MRet outcome := fun A a => Ok a.
#[global] Instance outcome_bind : MBind outcome := fun A B k m =>
  match m with
  | Ok a => k a
  | Fault => Fault
  | Timeout => Timeout
  end.

(** [p[i]] as an rvalue. *)
Definition load (p : list Z) (i : Z) : outcome Z :=
  if i <? 0 then Fault
  else match p !! Z.to_nat i with
       | Some b => Ok b
       | None => Fault
       end.

(** [p[i] = v]. *)
Definition store (p : list Z) (i : Z) (v : Z) : outcome (list Z) :=
  if (0 <=? i) && (i <? Z.of_nat (length p)) then Ok (<[Z.to_nat i := v]> p)
  else Fault.

(** ** ArbitraryLoader *)

Module MemoryDescription.
Record t : Type := mk {
  base_address : Z;   (* uint64_t *)
  size : Z;           (* uint64_t *)
  data : list Z       (* uint8_t*: the caller's bytes *)
}.
End MemoryDescription.

Module ArbitraryLoader.
Import MemoryDescription.

Record t : Type := mk {
  max_addr : Z;     (* maximum address of any region *)
  min_addr : Z;     (* minimum address of any region *)
  regions : list MemoryDescription.t
}.

(** Member initialisers of the class. *)
Definition new : t :=
  {| max_addr := 0; min_addr := 0xffffffffffffffff; regions := [] |}.

(** [base()]: minimum base address of all the regions. *)
Definition base (ld : t) : Z :=
  fold_left
    (fun base r => if base_address r <? base then base_address r else base)
    (regions ld) UINT64_MAX.

(** [load_region]: [push_back], then the two running bounds. *)
Definition load_region (ld : t) (address size : Z) (input_data : list Z) : t :=
  let desc := MemoryDescription.mk address size input_data in
  {| regions := regions ld ++ [desc];
     min_addr := if address <? min_addr ld then address else min_addr ld;
     max_addr := if to_u64 (address + size) >? max_addr ld
                 then to_u64 (address + size) else max_addr ld |}.

(** The loop of [region_from_address] over the vector, with its two
    [continue] tests. *)
Fixpoint scan (rs : list MemoryDescription.t) (address : Z)
  : option MemoryDescription.t :=
  match rs with
  | [] => None
  | guess :: rest =>
      if base_address guess >? address then scan rest address
      else if to_u64 (base_address guess + size guess) <=? address
           then scan rest address
           else Some guess
  end.

Definition region_from_address (ld : t) (address : Z)
  : option MemoryDescription.t :=
  scan (regions ld) address.

(** The containment test of [region_from_address], as one boolean: neither
    [continue] is taken. *)
Definition owns (r : MemoryDescription.t) (address : Z) : bool :=
  negb (base_address r >? address)
  && negb (to_u64 (base_address r + size r) <=? address).

(** Locals of [loadFill]. *)
Record fill : Type := mkfill {
  bytes_remaining : Z;   (* int32_t *)
  search_address : Z;    (* uint64_t *)
  write_idx : Z;         (* uint64_t *)
  out : list Z           (* the engine's buffer *)
}.

(** The three counter updates shared by both copy sites, after
    [out[write_idx]] was written. *)
Definition advance (st : fill) (out' : list Z) : fill :=
  {| out := out';
     write_idx := to_u64 (write_idx st + 1);
     search_address := to_u64 (search_address st + 1);
     bytes_remaining := bytes_remaining st - 1 |}.

(** The inner [for (i = region_index; i < region->size &&
    bytes_remaining > 0; i++)]. *)
Fixpoint copy_region (fuel : nat) (region : MemoryDescription.t) (i : Z)
    (st : fill) : outcome fill :=
  if (i <? size region) && (bytes_remaining st >? 0) then
    match fuel with
    | O => Timeout
    | S fuel' =>
        b ← load (data region) i;
        out' ← store (out st) (write_idx st) b;
        copy_region fuel' region (to_u64 (i + 1)) (advance st out')
    end
  else Ok st.

(** The outer [while (bytes_remaining > 0)]. *)
Fixpoint fill_loop (fuel : nat) (ld : t) (st : fill) : outcome fill :=
  if bytes_remaining st >? 0 then
    match fuel with
    | O => Timeout
    | S fuel' =>
        match region_from_address ld (search_address st) with
        | None =>
            out' ← store (out st) (write_idx st) 0;
            fill_loop fuel' ld (advance st out')
        | Some region =>
            let region_index :=
              to_u64 (search_address st - base_address region) in
            st' ← copy_region fuel region region_index st;
            fill_loop fuel' ld st'
        end
    end
  else Ok st.

(** [loadFill(ptr, size, addr)]: the buffer after the call.  Every
    iteration of either loop consumes one of the [size] requested bytes,
    which bounds the iterations. *)
Definition loadFill (ld : t) (ptr : list Z) (size : Z) (addr : Z)
  : outcome (list Z) :=
  let st := {| bytes_remaining := size; search_address := addr;
               write_idx := 0; out := ptr |} in
  if search_address st >? max_addr ld then Ok ptr
  else
    st' ← fill_loop (Z.to_nat size) ld st;
    Ok (out st').

(** Type invariant of a region: both fields are [uint64_t] and the
    caller's buffer holds at least [size] bytes. *)
Definition region_wf (r : MemoryDescription.t) : Prop :=
  is_u64 (base_address r) /\ is_u64 (size r)
  /\ size r <= Z.of_nat (length (data r)).

Definition wf (ld : t) : Prop := Forall region_wf (regions ld).

(** What the byte at [address] of the logical image may be: zero when the
    lookup finds no region, otherwise the byte some region passing the
    containment test holds at the corresponding index. *)
Definition image_byte (ld : t) (address : Z) (v : Z) : Prop :=
  match region_from_address ld address with
  | None => v = 0
  | Some _ =>
      exists r, r ∈ regions ld /\ owns r address = true
                /\ data r !! Z.to_nat (address - base_address r) = Some v
  end.

(** Loop invariant: [write_idx] bytes are final, the rest of the buffer is
    as the caller left it. *)
Definition fill_inv (ld : t) (buf : list Z) (sz addr : Z) (st : fill)
  : Prop :=
  0 <= bytes_remaining st <= sz
  /\ write_idx st = sz - bytes_remaining st
  /\ search_address st = to_u64 (addr + write_idx st)
  /\ length (out st) = length buf
  /\ (forall i, 0 <= i < write_idx st ->
        exists v, out st !! Z.to_nat i = Some v
                  /\ image_byte ld (to_u64 (addr + i)) v)
  /\ (forall n : nat, write_idx st <= Z.of_nat n -> out st !! n = buf !! n).
End ArbitraryLoader.

(** The request [addr, addr + size) lies entirely outside the tracked
    minimum-to-maximum range: entirely below the minimum or entirely above
    the maximum. *)
Definition outside_tracked_range (ld : ArbitraryLoader.t) (addr size : Z)
  : Prop :=
  addr + size <= ArbitraryLoader.min_addr ld \/ ArbitraryLoader.max_addr ld < addr.

(** The containment test in the words of the data model: the region starts
    at or before the address and ends after it.  The end is the 64-bit sum
    the code computes. *)
Definition contains (r : MemoryDescription.t) (address : Z) : Prop :=
  MemoryDescription.base_address r <= address
  /\ to_u64 (MemoryDescription.base_address r + MemoryDescription.size r) > address.

(** [r] is the first region, in registration order, that contains the
    address: it sits at some index of the vector and no region at a smaller
    index contains the address. *)
Definition first_registered_owner (rs : list MemoryDescription.t)
    (address : Z) (r : MemoryDescription.t) : Prop :=
  exists i : nat,
    rs !! i = Some r /\ contains r address
    /\ forall (j : nat) r', (j < i)%nat -> rs !! j = Some r' ->
                            ~ contains r' address.

Definition region_1000 : MemoryDescription.t :=
  MemoryDescription.mk 0x1000 4 [0xAA; 0xBB; 0xCC; 0xDD].

Definition loader_1000 : ArbitraryLoader.t :=
  ArbitraryLoader.load_region ArbitraryLoader.new 0x1000 4 [0xAA; 0xBB; 0xCC; 0xDD].

(** Two overlapping regions, the inner one registered first: [0x1002,2)
    holding 11 22, then [0x1000,4) holding AA BB CC DD. *)
Definition loader_inner_first : ArbitraryLoader.t :=
  ArbitraryLoader.load_region
    (ArbitraryLoader.load_region ArbitraryLoader.new 0x1002 2 [0x11; 0x22])
    0x1000 4 [0xAA; 0xBB; 0xCC; 0xDD].

(** Two overlapping regions: [0x1000,4) registered first, [0x1002,4) second. *)
Definition loader_overlap : ArbitraryLoader.t :=
  ArbitraryLoader.load_region loader_1000 0x1002 4 [0x11; 0x22; 0x33; 0x44].


(** ** C strings and fixed-size character arrays *)

Definition NUL : ascii := "000"%char.

(** [s.c_str()] read as a C string: the characters before the first NUL
    (the end of the [std::string] is its terminator). *)
Fixpoint c_str (s : string) : string :=
  match s with
  | EmptyString => EmptyString
  | String c s' => if Ascii.eqb c NUL then EmptyString else String c (c_str s')
  end.

(** [strdup(s.c_str())]: a fresh buffer holding the C string. *)
Definition strdup (s : string) : option string := Some (c_str s).

(** [s.size()]. *)
Definition string_size (s : string) : Z := Z.of_nat (String.length s).

(** [strncpy(dest, src.c_str(), n)] of the C library: exactly [n] characters
    are written to [dest], the characters of the C string first and NULs
    after its end; no terminator is written when the string has [n] or more
    characters.  [dest] is the memory from the start of the destination
    array on: a result longer than [dest] means characters were written
    past its end. *)
Fixpoint strncpy (dest : list ascii) (src : string) (n : nat) : list ascii :=
  match n with
  | O => dest
  | S n' =>
      match src with
      | String c src' =>
          if Ascii.eqb c NUL then NUL :: strncpy (tail dest) EmptyString n'
          else c :: strncpy (tail dest) src' n'
      | EmptyString => NUL :: strncpy (tail dest) EmptyString n'
      end
  end.

(** The contents of an [n]-character array holding [name] truncated to the
    capacity: what the data model calls a truncated name. *)
Definition truncated_name (n : nat) (name : string) : list ascii :=
  let cs := list_ascii_of_string (c_str name) in
  take n cs ++ replicate (n - length cs) NUL.

(** Memory obtained from [new] is not initialised: scalars and characters
    hold whatever the allocator hands out. *)
Class Allocator : Type := {
  uninit_char : ascii;
  uninit_u64 : Z
}.

Definition uninit_chars {A : Allocator} (n : nat) : list ascii :=
  replicate n uninit_char.

(** ** Exported structures *)

Module VarnodeDesc.
Record t : Type := mk {
  space : list ascii;   (* char[16] *)
  offset : Z;           (* uint64_t *)
  size : Z              (* uint64_t *)
}.
End VarnodeDesc.

Module PcodeOp.
Record t : Type := mk {
  opcode : Z;                           (* ghidra::OpCode *)
  output : option VarnodeDesc.t;        (* VarnodeDesc*, null when absent *)
  input_len : Z;                        (* uint64_t *)
  inputVarnodes : list VarnodeDesc.t    (* VarnodeDesc* *)
}.
End PcodeOp.

Module InsnDesc.
Record t : Type := mk {
  op_count : Z;
  ops : list PcodeOp.t;
  size : Z;
  address : Z;
  insn : option string;     (* char*, null when [None] *)
  insn_len : Z;
  body : option string;
  body_len : Z
}.
End InsnDesc.

Module RegisterDesc.
Record t : Type := mk {
  name : list ascii;        (* char[64] *)
  varnode : VarnodeDesc.t
}.
End RegisterDesc.

Module RegisterList.
Record t : Type := mk {
  register_count : Z;
  registers : list RegisterDesc.t
}.
End RegisterList.

(** ** The decoding engine, as the session sees it *)

(** Modelled from the spec: ghidra::VarnodeData (pcoderaw.hh is not part of
    the sources): an operand as the engine reports it, namely the name of
    its address space ([space->getName()]), its offset ([uintb], 64 bits)
    and its size ([uint4], 32 bits). *)
Module VarnodeData.
Record t : Type := mk {
  space : string;
  offset : Z;
  size : Z
}.
End VarnodeData.

(** Modelled from the spec: the failure classes of the engine (error.hh and
    translate.hh are not part of the sources).  Every failure the engine
    signals is a [LowlevelError] or of a class derived from it;
    [BadDataError] is the malformed-encoding failure. *)
Inductive error_class : Type :=
| LowlevelError
| BadDataError
| UnimplError.

Record exn : Type := mkexn {
  cls : error_class;
  explain : string
}.

(** [catch (base &)]: does a thrown object of class [c] match the handler? *)
Definition derives (c base : error_class) : bool :=
  match base, c with
  | LowlevelError, _ => true
  | BadDataError, BadDataError => true
  | UnimplError, UnimplError => true
  | _, _ => false
  end.

(** How a call ends: with a value, or with an exception in flight. *)
Inductive completion (A : Type) : Type :=
| Returns (a : A)
| Throws (e : exn).
Arguments Returns {A} a.
Arguments Throws {A} e.

(** One call of [AssemblyEmit::dump] made by the engine. *)
Record AsmDump : Type := mkAsmDump {
  ad_addr : Z;        (* addr.getOffset() *)
  ad_text : string;
  ad_body : string
}.

(** One call of [PcodeEmit::dump] made by the engine; [input_len] is the
    length of [pd_inputs]. *)
Record PcodeDump : Type := mkPcodeDump {
  pd_addr : Z;
  pd_opcode : Z;
  pd_output : option VarnodeData.t;
  pd_inputs : list VarnodeData.t
}.

(** Modelled from the spec: the engine interface (sleigh.hh, translate.hh
    and globalcontext.hh are not part of the sources).  [Eng] is the state
    behind [sleigh], [context] and [document_storage].  A decoding call
    reads the image through the loader, makes some callbacks on the emitter
    it was given, and then returns a length ([int4]) or throws. *)
Class Sleigh (Eng : Type) : Type := {
  printAssembly :
    Eng -> ArbitraryLoader.t -> Z -> Eng * list AsmDump * completion Z;
  oneInstruction :
    Eng -> ArbitraryLoader.t -> Z -> Eng * list PcodeDump * completion Z;
  setVariableDefault : Eng -> string -> Z -> Eng * completion unit;
  getAllRegisters : Eng -> list (VarnodeData.t * string)
}.

(** ** The two collectors *)

Module ArbitraryAsmEmitter.
Record t : Type := mk {
  insn_size : Z;
  address : Z;
  insn_text : option string;
  insn_text_len : Z;
  insn_body : option string;
  insn_body_len : Z
}.

Definition clear (em : t) : t :=
  {| insn_size := 0; address := 0; insn_text := None; insn_text_len := 0;
     insn_body := None; insn_body_len := 0 |}.

Definition dump (em : t) (addr : Z) (text body : string) : t :=
  {| insn_size := insn_size em;
     address := addr;
     insn_text := strdup text;
     insn_text_len := string_size text;
     insn_body := strdup body;
     insn_body_len := string_size body |}.

(** The callbacks of one engine call, in order. *)
Definition receive (em : t) (calls : list AsmDump) : t :=
  fold_left (fun em c => dump em (ad_addr c) (ad_text c) (ad_body c)) calls em.
End ArbitraryAsmEmitter.

Module ArbitraryPcodeEmitter.
(** The [pcode_ops] vector. *)
Definition t : Type := list PcodeOp.t.

Definition dump {A : Allocator} (pcode_ops : t) (addr : Z) (opcode : Z)
    (output : option VarnodeData.t) (inputs : list VarnodeData.t) : t :=
  let input_descs :=
    map (fun input_node =>
           {| VarnodeDesc.offset := VarnodeData.offset input_node;
              VarnodeDesc.size := VarnodeData.size input_node;
              VarnodeDesc.space :=
                strncpy (uninit_chars 16) (VarnodeData.space input_node) 16 |})
        inputs in
  let op_output :=
    match output with
    | Some output =>
        Some {| VarnodeDesc.offset := VarnodeData.offset output;
                VarnodeDesc.size := VarnodeData.size output;
                VarnodeDesc.space :=
                  strncpy (uninit_chars 16) (VarnodeData.space output) 16 |}
    | None => None
    end in
  pcode_ops ++ [ {| PcodeOp.opcode := opcode;
                    PcodeOp.input_len := to_u64 (Z.of_nat (length inputs));
                    PcodeOp.inputVarnodes := input_descs;
                    PcodeOp.output := op_output |} ].

Definition receive {A : Allocator} (pcode_ops : t) (calls : list PcodeDump) : t :=
  fold_left
    (fun ops c => dump ops (pd_addr c) (pd_opcode c) (pd_output c) (pd_inputs c))
    calls pcode_ops.
End ArbitraryPcodeEmitter.

(** ** ArbitraryManager *)

Module ArbitraryManager.
Section WithEngine.
Context {Eng : Type} {E : Sleigh Eng} {A : Allocator}.

Record t : Type := mk {
  loader : ArbitraryLoader.t;
  pcode_emitter : ArbitraryPcodeEmitter.t;
  asm_emitter : ArbitraryAsmEmitter.t;
  sleigh : Eng;
  current_translate_address : Z
}.

(** The constructor: the cursor starts at 0, the loader and the vector are
    empty, the assembly collector is not initialised. *)
Definition new (engine : Eng) : t :=
  {| loader := ArbitraryLoader.new;
     pcode_emitter := [];
     asm_emitter :=
       ArbitraryAsmEmitter.mk uninit_u64 uninit_u64 None uninit_u64 None uninit_u64;
     sleigh := engine;
     current_translate_address := 0 |}.

Definition load_data (m : t) (address size : Z) (data : list Z) : t :=
  {| loader := ArbitraryLoader.load_region (loader m) address size data;
     pcode_emitter := pcode_emitter m;
     asm_emitter := asm_emitter m;
     sleigh := sleigh m;
     current_translate_address := current_translate_address m |}.

(** [to_insn_desc]: a fresh [InsnDesc] with seven of its eight fields
    assigned from the collectors. *)
Definition to_insn_desc (m : t) : InsnDesc.t :=
  {| InsnDesc.op_count := Z.of_nat (length (pcode_emitter m));
     InsnDesc.ops := pcode_emitter m;
     InsnDesc.size := ArbitraryAsmEmitter.insn_size (asm_emitter m);
     InsnDesc.address := uninit_u64;
     InsnDesc.insn := ArbitraryAsmEmitter.insn_text (asm_emitter m);
     InsnDesc.insn_len := ArbitraryAsmEmitter.insn_text_len (asm_emitter m);
     InsnDesc.body := ArbitraryAsmEmitter.insn_body (asm_emitter m);
     InsnDesc.body_len := ArbitraryAsmEmitter.insn_body_len (asm_emitter m) |}.

Definition set_address (d : InsnDesc.t) (addr : Z) : InsnDesc.t :=
  {| InsnDesc.op_count := InsnDesc.op_count d;
     InsnDesc.ops := InsnDesc.ops d;
     InsnDesc.size := InsnDesc.size d;
     InsnDesc.address := addr;
     InsnDesc.insn := InsnDesc.insn d;
     InsnDesc.insn_len := InsnDesc.insn_len d;
     InsnDesc.body := InsnDesc.body d;
     InsnDesc.body_len := InsnDesc.body_len d |}.

Definition set_insn_size (em : ArbitraryAsmEmitter.t) (n : Z)
  : ArbitraryAsmEmitter.t :=
  {| ArbitraryAsmEmitter.insn_size := n;
     ArbitraryAsmEmitter.address := ArbitraryAsmEmitter.address em;
     ArbitraryAsmEmitter.insn_text := ArbitraryAsmEmitter.insn_text em;
     ArbitraryAsmEmitter.insn_text_len := ArbitraryAsmEmitter.insn_text_len em;
     ArbitraryAsmEmitter.insn_body := ArbitraryAsmEmitter.insn_body em;
     ArbitraryAsmEmitter.insn_body_len := ArbitraryAsmEmitter.insn_body_len em |}.

(** The address [translate_next] builds its [ghidra::Address] from: the
    cursor, replaced by [loader.base()] when it is 0. *)
Definition translate_address (m : t) : Z :=
  if current_translate_address m =? 0 then ArbitraryLoader.base (loader m)
  else current_translate_address m.

Definition translate_next (m : t) : t * completion InsnDesc.t :=
  let cursor := translate_address m in
  let '(s1, calls, r1) := printAssembly (sleigh m) (loader m) cursor in
  let asm1 := ArbitraryAsmEmitter.receive (asm_emitter m) calls in
  match r1 with
  | Throws e => (mk (loader m) (pcode_emitter m) asm1 s1 cursor, Throws e)
  | Returns _ =>
      let '(s2, pcalls, r2) := oneInstruction s1 (loader m) cursor in
      let ops2 := ArbitraryPcodeEmitter.receive (pcode_emitter m) pcalls in
      match r2 with
      | Throws e => (mk (loader m) ops2 asm1 s2 cursor, Throws e)
      | Returns insn_length =>
          let asm2 := set_insn_size asm1 (to_u64 insn_length) in
          let cursor' := to_u64 (cursor + insn_length) in
          let out := to_insn_desc (mk (loader m) ops2 asm2 s2 cursor') in
          (mk (loader m) [] (ArbitraryAsmEmitter.clear asm2) s2 cursor',
           Returns out)
      end
  end.

(** The handler of [lift_insn]: a [BadDataError] becomes a null result,
    anything else stays in flight. *)
Definition catch_BadDataError (m : t) (e : exn)
  : t * completion (option InsnDesc.t) :=
  if derives (cls e) BadDataError then (m, Returns None) else (m, Throws e).

Definition lift_insn (m : t) (addr : Z) : t * completion (option InsnDesc.t) :=
  let '(s1, calls, r1) := printAssembly (sleigh m) (loader m) addr in
  let asm1 := ArbitraryAsmEmitter.receive (asm_emitter m) calls in
  match r1 with
  | Throws e =>
      catch_BadDataError
        (mk (loader m) (pcode_emitter m) asm1 s1 (current_translate_address m)) e
  | Returns _ =>
      let '(s2, pcalls, r2) := oneInstruction s1 (loader m) addr in
      let ops2 := ArbitraryPcodeEmitter.receive (pcode_emitter m) pcalls in
      match r2 with
      | Throws e =>
          catch_BadDataError
            (mk (loader m) ops2 asm1 s2 (current_translate_address m)) e
      | Returns insn_length =>
          let asm2 := set_insn_size asm1 (to_u64 insn_length) in
          let m2 := mk (loader m) ops2 asm2 s2 (current_translate_address m) in
          let out := set_address (to_insn_desc m2) addr in
          (mk (loader m) [] (ArbitraryAsmEmitter.clear asm2) s2
              (current_translate_address m),
           Returns (Some out))
      end
  end.

Definition context_var_set_default (m : t) (key : string) (value : Z)
  : t * completion unit :=
  let '(s1, r) := setVariableDefault (sleigh m) key value in
  (mk (loader m) (pcode_emitter m) (asm_emitter m) s1
      (current_translate_address m), r).

Definition get_all_registers (m : t) : RegisterList.t :=
  let register_list := getAllRegisters (sleigh m) in
  {| RegisterList.register_count := Z.of_nat (length register_list);
     RegisterList.registers :=
       map (fun it : VarnodeData.t * string =>
              let vn := fst it in
              let name := snd it in
              {| RegisterDesc.name := strncpy (uninit_chars 64) name 64;
                 RegisterDesc.varnode :=
                   {| VarnodeDesc.offset := VarnodeData.offset vn;
                      VarnodeDesc.size := VarnodeData.size vn;
                      VarnodeDesc.space :=
                        strncpy (uninit_chars 16) (VarnodeData.space vn) 16 |} |})
           register_list |}.

(** *** The C API *)

Definition arbitrary_manager_next_insn (mgr : t) : t * completion InsnDesc.t :=
  translate_next mgr.

Definition arbitrary_manager_lift_insn (mgr : t) (address : Z)
  : t * completion (option InsnDesc.t) :=
  lift_insn mgr address.

(** [std::endl]. *)
Definition endl : string := String "010"%char EmptyString.

(** [cout] is the text written to the standard output so far. *)
Definition arbitrary_manager_context_var_set_default (mgr : t) (cout : string)
    (key : string) (value : Z) : t * string * completion unit :=
  match context_var_set_default mgr key value with
  | (mgr', Returns tt) => (mgr', cout, Returns tt)
  | (mgr', Throws err) =>
      if derives (cls err) LowlevelError
      then (mgr', (cout ++ "[libsla ERROR]: " ++ explain err ++ endl)%string,
            Returns tt)
      else (mgr', cout, Throws err)
  end.

Definition arbitrary_manager_get_all_registers (mgr : t) : RegisterList.t :=
  get_all_registers mgr.

End WithEngine.
Arguments t Eng : clear implicits.
End ArbitraryManager.

(** Both collectors are empty: no micro-operation, and the assembly
    collector in the state [clear] leaves it in. *)
Definition collectors_cleared {Eng : Type} (m : ArbitraryManager.t Eng)
  : Prop :=
  ArbitraryManager.pcode_emitter m = []
  /\ ArbitraryManager.asm_emitter m
     = ArbitraryAsmEmitter.clear (ArbitraryManager.asm_emitter m).

(** ** The BFD accessors (local-bfd.h) *)

(** Modelled from the spec: the two fields of [struct bfd] the accessors
    read directly (bfd.h is not part of the sources).  Section pointers are
    addresses, 0 being the null pointer. *)
Module bfd.
Record t : Type := mk {
  sections : Z;          (* struct bfd_section* *)
  section_last : Z       (* struct bfd_section* *)
}.
End bfd.

Section BfdAccessors.
(** The two accessors of the library the wrappers call: given, not
    defined here.  [bfd_count_sections] yields an [unsigned int],
    [bfd_get_start_address] a [bfd_vma]. *)
Variable bfd_count_sections : bfd.t -> Z.
Variable bfd_get_start_address : bfd.t -> Z.

Definition get_section_count (abfd : bfd.t) : Z :=
  to_u64 (bfd_count_sections abfd).

Definition get_start_address (abfd : bfd.t) : Z :=
  to_u64 (bfd_get_start_address abfd).

Definition get_sections (abfd : bfd.t) : Z := bfd.sections abfd.
Definition get_last_section (abfd : bfd.t) : Z := bfd.section_last abfd.
End BfdAccessors.

(** ** The exported form of an operand, in the words of the data model *)

(** An operand descriptor: the address-space name cut to the sixteen
    characters of the field, the offset and the size as the engine gave
    them. *)
Definition exported_operand (node : VarnodeData.t) : VarnodeDesc.t :=
  {| VarnodeDesc.space := truncated_name 16 (VarnodeData.space node);
     VarnodeDesc.offset := VarnodeData.offset node;
     VarnodeDesc.size := VarnodeData.size node |}.

(** A register descriptor: the name cut to sixty-four characters, paired
    with the operand describing its storage. *)
Definition exported_register (entry : VarnodeData.t * string) : RegisterDesc.t :=
  {| RegisterDesc.name := truncated_name 64 (snd entry);
     RegisterDesc.varnode := exported_operand (fst entry) |}.

(** ** Test fixtures *)

Definition test_allocator : Allocator :=
  {| uninit_char := "?"%char; uninit_u64 := 0xDEADBEEF |}.

(** An engine whose state is the list of addresses it was asked to decode,
    most recent last.  Every instruction is four bytes long, prints as
    [nop] and has one micro-operation without operands, except that the
    bytes at 0x3000 have no valid encoding at all and the instruction at
    0x2000 prints but cannot be lifted (malformed past its first part, like
    an instruction whose delay slot does not decode). *)
Definition test_engine : Sleigh (list Z) :=
  {| printAssembly log ld addr :=
       if addr =? 0x3000
       then (log ++ [addr], [], Throws (mkexn BadDataError "bad encoding"))
       else (log ++ [addr], [mkAsmDump addr "nop" ""], Returns 4);
     oneInstruction log ld addr :=
       if addr =? 0x2000
       then (log ++ [addr], [], Throws (mkexn BadDataError "bad delay slot"))
       else (log ++ [addr], [mkPcodeDump addr 1 None []], Returns 4);
     setVariableDefault log key value :=
       (log, Throws (mkexn LowlevelError
                           ("Non-existent context variable: " ++ key)%string));
     getAllRegisters log :=
       [ (VarnodeData.mk "register" 0 8, "RAX"%string);
         (VarnodeData.mk "a_very_long_space_name" 8 8,
          "a_register_name_that_is_far_longer_than_the_sixty_four_characters_of_the_field"%string) ] |}.

Definition test_manager : ArbitraryManager.t (list Z) :=
  ArbitraryManager.new (A := test_allocator) [].

(** A session with four bytes mapped at the very top of the address space. *)
Definition top_manager : ArbitraryManager.t (list Z) :=
  ArbitraryManager.load_data test_manager 0xFFFFFFFFFFFFFFFC 4 [1; 2; 3; 4].

(** A session with the four bytes AA BB CC DD mapped at 0x1000. *)
Definition manager_1000 : ArbitraryManager.t (list Z) :=
  ArbitraryManager.load_data test_manager 0x1000 4 [0xAA; 0xBB; 0xCC; 0xDD].

(** A session with sixteen bytes mapped at 0x2000. *)
Definition manager_2000 : ArbitraryManager.t (list Z) :=
  ArbitraryManager.load_data test_manager 0x2000 16
    [0; 0; 0; 0; 0; 0; 0; 0; 0; 0; 0; 0; 0; 0; 0; 0].

(** ** Call sequences *)

(** The loaders a session can hold: the one the constructor makes, grown by
    calls of [load_region] whose arguments are [uint64_t] values. *)
Inductive built : ArbitraryLoader.t -> Prop :=
| built_new : built ArbitraryLoader.new
| built_load ld address size input_data :
    built ld -> is_u64 address -> is_u64 size ->
    built (ArbitraryLoader.load_region ld address size input_data).

(** The sessions on which [translate_next] has not run yet: the one the
    constructor makes, after any number of [load_data] and [lift_insn]
    calls. *)
Inductive not_started {Eng : Type} {E : Sleigh Eng} {A : Allocator}
  : ArbitraryManager.t Eng -> Prop :=
| ns_new engine : not_started (ArbitraryManager.new engine)
| ns_load m address size data :
    not_started m -> is_u64 address -> is_u64 size ->
    not_started (ArbitraryManager.load_data m address size data)
| ns_lift m addr :
    not_started m -> not_started (fst (ArbitraryManager.lift_insn m addr)).

(** The record [ArbitraryPcodeEmitter::dump] appends for one callback, with
    the operands in their exported form. *)
Definition exported_op (c : PcodeDump) : PcodeOp.t :=
  {| PcodeOp.opcode := pd_opcode c;
     PcodeOp.output := option_map exported_operand (pd_output c);
     PcodeOp.input_len := to_u64 (Z.of_nat (length (pd_inputs c)));
     PcodeOp.inputVarnodes := map exported_operand (pd_inputs c) |}.

(** Does the text hold a NUL character? *)
Fixpoint has_NUL (s : string) : bool :=
  match s with
  | EmptyString => false
  | String c s' => Ascii.eqb c NUL || has_NUL s'
  end.

(** ** The user-defined operation names *)

Module UserOpNames.
Record t : Type := mk {
  num : Z;                        (* uint64_t *)
  name_lens : list Z;             (* uint64_t* *)
  names : list (option string)    (* char**, null when [None] *)
}.
End UserOpNames.





(* ================================================================== *)
(** * Properties *)
(* ================================================================== *)

(** ** Word arithmetic *)


Lemma to_u64_small z : is_u64 z -> to_u64 z = z.
Proof. unfold is_u64, to_u64. intros H. apply Z.mod_small. lia. Qed.

Lemma to_u64_succ z : to_u64 (to_u64 z + 1) = to_u64 (z + 1).
Proof. unfold to_u64. apply Zplus_mod_idemp_l. Qed.

(** ** Region lookup *)

Section Lookup.
Import MemoryDescription ArbitraryLoader.

Lemma scan_cons guess rest address :
  scan (guess :: rest) address =
  if owns guess address then Some guess else scan rest address.
Proof.
  unfold owns. simpl.
  destruct (base_address guess >? address); simpl; [reflexivity|].
  destruct (to_u64 (base_address guess + size guess) <=? address); reflexivity.
Qed.

Lemma scan_Some rs address r :
  scan rs address = Some r -> r ∈ rs /\ owns r address = true.
Proof.
  induction rs as [|g rest IH]; [discriminate|].
  rewrite scan_cons. destruct (owns g address) eqn:Hg.
  - intros [= <-]. split; [left | exact Hg].
  - intros H. destruct (IH H) as [Hin Ho]. split; [right; exact Hin | exact Ho].
Qed.

Lemma scan_None rs address :
  scan rs address = None -> forall r, r ∈ rs -> owns r address = false.
Proof.
  induction rs as [|g rest IH]; intros H r Hin.
  - inversion Hin.
  - rewrite scan_cons in H. destruct (owns g address) eqn:Hg; [discriminate|].
    apply elem_of_cons in Hin as [-> | Hin]; [exact Hg | exact (IH H r Hin)].
Qed.

(** A region that passes the test does not wrap: its end is below 2^64 and
    the address lies in the integer interval. *)
Lemma owns_interval r address :
  is_u64 (base_address r) -> is_u64 (size r) -> owns r address = true ->
  base_address r <= address < base_address r + size r
  /\ base_address r + size r < 2 ^ 64.
Proof.
  unfold owns, is_u64, to_u64. intros Hb Hs H.
  apply andb_true_iff in H as [H1 H2].
  apply negb_true_iff in H1, H2.
  rewrite Z.gtb_ltb, Z.ltb_ge in H1. rewrite Z.leb_gt in H2.
  destruct (Z_lt_ge_dec (base_address r + size r) (2 ^ 64)) as [Hlt | Hge].
  - rewrite Z.mod_small in H2 by lia. lia.
  - exfalso.
    assert (Hm : (base_address r + size r) mod 2 ^ 64
                 = base_address r + size r - 2 ^ 64).
    { symmetry. apply Z.mod_unique with (q := 1); lia. }
    lia.
Qed.

End Lookup.

(** ** The fill loops *)

Section Fill.
Import MemoryDescription ArbitraryLoader.

Variable ld : ArbitraryLoader.t.
Variable buf : list Z.
Variables sz addr : Z.
Hypothesis ld_wf : wf ld.
Hypothesis sz_pos : 0 <= sz < 2 ^ 31.
Hypothesis sz_buf : sz <= Z.of_nat (length buf).

Local Abbreviation fill_inv := (ArbitraryLoader.fill_inv ld buf sz addr).

Lemma fill_inv_step st v :
  fill_inv st -> 0 < bytes_remaining st ->
  image_byte ld (search_address st) v ->
  exists out', store (out st) (write_idx st) v = Ok out'
               /\ fill_inv (advance st out')
               /\ bytes_remaining (advance st out') = bytes_remaining st - 1.
Proof.
  intros (Hbr & Hw & Hs & Hlen & Hdone & Hrest) Hpos Hv.
  assert (Hin : 0 <= write_idx st < Z.of_nat (length (out st))) by (rewrite Hlen; lia).
  exists (<[Z.to_nat (write_idx st) := v]> (out st)). split.
  { unfold store.
    destruct (Z.leb_spec 0 (write_idx st)); [|lia].
    destruct (Z.ltb_spec (write_idx st) (Z.of_nat (length (out st)))); [|lia].
    reflexivity. }
  split; [|reflexivity].
  assert (Hw1 : to_u64 (write_idx st + 1) = write_idx st + 1).
  { apply to_u64_small. unfold is_u64. lia. }
  unfold ArbitraryLoader.fill_inv, advance; simpl. rewrite Hw1.
  repeat split; try lia.
  - rewrite Hs, to_u64_succ. f_equal. lia.
  - rewrite length_insert. exact Hlen.
  - intros i Hi. destruct (Z.eq_dec i (write_idx st)) as [-> | Hne].
    + exists v. split.
      * apply list_lookup_insert_eq. lia.
      * rewrite <- Hs. exact Hv.
    + destruct (Hdone i) as (w & Hw' & Hok); [lia|].
      exists w. split; [|exact Hok].
      rewrite list_lookup_insert_ne by lia. exact Hw'.
  - intros n Hn. rewrite list_lookup_insert_ne by lia. apply Hrest. lia.
Qed.

Lemma copy_region_inv fuel : forall r i st,
  fill_inv st -> r ∈ regions ld ->
  base_address r + size r < 2 ^ 64 ->
  0 <= i <= size r -> search_address st = base_address r + i ->
  bytes_remaining st <= Z.of_nat fuel ->
  exists st', copy_region fuel r i st = Ok st' /\ fill_inv st'
    /\ bytes_remaining st' <= bytes_remaining st
    /\ (i < size r -> 0 < bytes_remaining st ->
        bytes_remaining st' < bytes_remaining st).
Proof.
  induction fuel as [|fuel IH]; intros r i st Hinv Hr Hend Hi Hsa Hfuel;
    pose proof Hinv as (Hbr & _);
    assert (Hrwf : region_wf r)
      by (exact (proj1 (Forall_forall _ _) ld_wf r Hr));
    destruct Hrwf as (Hb & Hs & Hd); unfold is_u64 in Hb, Hs.
  - exists st. simpl.
    destruct (Z.ltb_spec i (size r)), (Z.gtb_spec (bytes_remaining st) 0);
      simpl; try lia; (split; [reflexivity|]); (split; [exact Hinv|lia]).
  - simpl.
    destruct (Z.ltb_spec i (size r)) as [Hlt|Hge]; simpl;
      [destruct (Z.gtb_spec (bytes_remaining st) 0) as [Hgt|Hle]|].
    + (* one byte is copied *)
      destruct (lookup_lt_is_Some_2 (data r) (Z.to_nat i)) as [b Hbyte]; [lia|].
      assert (Hload : load (data r) i = Ok b).
      { unfold load. destruct (Z.ltb_spec i 0); [lia|]. rewrite Hbyte. reflexivity. }
      assert (Hok : image_byte ld (search_address st) b).
      { unfold image_byte, region_from_address.
        assert (Hown : owns r (search_address st) = true).
        { unfold owns. rewrite to_u64_small by (unfold is_u64; lia).
          destruct (Z.gtb_spec (base_address r) (search_address st)); [lia|].
          destruct (Z.leb_spec (base_address r + size r) (search_address st)); [lia|].
          reflexivity. }
        destruct (scan (regions ld) (search_address st)) eqn:Hscan.
        - exists r. split; [exact Hr|]. split; [exact Hown|].
          replace (search_address st - base_address r) with i by lia. exact Hbyte.
        - rewrite (scan_None _ _ Hscan r Hr) in Hown. discriminate. }
      destruct (fill_inv_step st b Hinv ltac:(lia) Hok) as (out' & Hst & Hinv' & Hbr').
      rewrite Hload. simpl. rewrite Hst. simpl.
      rewrite (to_u64_small (i + 1)) by (unfold is_u64; lia).
      destruct (IH r (i + 1) (advance st out')) as (st' & Hrun & Hinv'' & Hle & _);
        try assumption; try lia.
      { simpl. rewrite Hsa. rewrite to_u64_small by (unfold is_u64; lia). lia. }
      exists st'. split; [exact Hrun|]. split; [exact Hinv''|]. lia.
    + exists st. split; [reflexivity|]. split; [exact Hinv|]. lia.
    + exists st. split; [reflexivity|]. split; [exact Hinv|]. lia.
Qed.

Lemma fill_loop_inv fuel : forall st,
  fill_inv st -> bytes_remaining st <= Z.of_nat fuel ->
  exists st', fill_loop fuel ld st = Ok st' /\ fill_inv st'
              /\ bytes_remaining st' = 0.
Proof.
  induction fuel as [|fuel IH]; intros st Hinv Hfuel;
    pose proof Hinv as (Hbr & Hw & Hsa & _).
  - exists st. simpl. destruct (Z.gtb_spec (bytes_remaining st) 0); [lia|].
    split; [reflexivity|]. split; [exact Hinv|lia].
  - cbn [fill_loop]. destruct (Z.gtb_spec (bytes_remaining st) 0) as [Hgt|Hle].
    2:{ exists st. split; [reflexivity|]. split; [exact Hinv|lia]. }
    destruct (region_from_address ld (search_address st)) as [r|] eqn:Hlook.
    + (* a region owns the address *)
      destruct (scan_Some _ _ _ Hlook) as [Hr Hown].
      assert (Hrwf : region_wf r)
        by (exact (proj1 (Forall_forall _ _) ld_wf r Hr)).
      destruct Hrwf as (Hb & Hs & Hd).
      destruct (owns_interval r _ Hb Hs Hown) as [Hival Hend].
      unfold is_u64 in Hb, Hs.
      rewrite (to_u64_small (search_address st - base_address r))
        by (unfold is_u64; lia).
      destruct (copy_region_inv (S fuel) r (search_address st - base_address r) st)
        as (st1 & Hrun & Hinv1 & Hle & Hlt); try assumption; try lia.
      rewrite Hrun. simpl.
      apply IH; [exact Hinv1|]. specialize (Hlt ltac:(lia) ltac:(lia)). lia.
    + (* no region: one zero byte *)
      assert (Hok : image_byte ld (search_address st) 0).
      { unfold image_byte. rewrite Hlook. reflexivity. }
      destruct (fill_inv_step st 0 Hinv ltac:(lia) Hok) as (out' & Hst & Hinv' & Hbr').
      rewrite Hst. simpl. apply IH; [exact Hinv'|lia].
Qed.

End Fill.

Section FillResults.
Import MemoryDescription ArbitraryLoader.

Lemma fill_loop_regions fuel : forall ld ld' st,
  regions ld = regions ld' -> fill_loop fuel ld st = fill_loop fuel ld' st.
Proof.
  induction fuel as [|fuel IH]; intros ld ld' st Hreg; [reflexivity|].
  cbn [fill_loop]. unfold region_from_address. rewrite Hreg.
  destruct (bytes_remaining st >? 0); [|reflexivity].
  destruct (scan (regions ld') (search_address st)).
  - destruct (copy_region (S fuel) t0 _ st); simpl; auto.
  - destruct (store (out st) (write_idx st) 0); simpl; auto.
Qed.

(** A request that is not rejected is served completely. *)
Lemma loadFill_served ld (buf : list Z) sz addr :
  wf ld -> is_u64 addr -> is_i32 sz -> sz <= Z.of_nat (length buf) ->
  addr <= max_addr ld ->
  exists out : list Z,
    loadFill ld buf sz addr = Ok out
    /\ length out = length buf
    /\ (forall i, 0 <= i < sz ->
          exists v, out !! Z.to_nat i = Some v
                    /\ image_byte ld (to_u64 (addr + i)) v)
    /\ (forall n : nat, sz <= Z.of_nat n -> out !! n = buf !! n).
Proof.
  intros Hwf Ha Hsz Hbuf Hmax. unfold loadFill. cbn [search_address].
  destruct (Z.gtb_spec addr (max_addr ld)) as [Hgt|_]; [lia|].
  destruct (Z_lt_ge_dec sz 0) as [Hneg|Hnn].
  - (* a negative size: the loop body never runs *)
    replace (Z.to_nat sz) with O by lia. simpl.
    destruct (Z.gtb_spec sz 0); [lia|]. simpl.
    exists buf. repeat split; intros; try lia; reflexivity.
  - set (st0 := {| bytes_remaining := sz; search_address := addr;
                   write_idx := 0; out := buf |}).
    assert (Hinv0 : fill_inv ld buf sz addr st0).
    { unfold fill_inv, st0; simpl. repeat split; try lia.
      rewrite Z.add_0_r. symmetry. apply to_u64_small, Ha. }
    unfold is_i32 in Hsz.
    destruct (fill_loop_inv ld buf sz addr Hwf ltac:(lia) Hbuf (Z.to_nat sz) st0 Hinv0)
      as (st' & Hrun & (Hbr & Hw & Hsa & Hlen & Hdone & Hrest) & Hz).
    { simpl. lia. }
    rewrite Hrun. simpl. exists (out st').
    split; [reflexivity|]. split; [exact Hlen|].
    rewrite Hz, Z.sub_0_r in Hw. rewrite Hw in Hdone, Hrest.
    split; [exact Hdone | exact Hrest].
Qed.

End FillResults.

(** In the image of one region, or of regions that do not overlap at the
    address, the owner is unique, so the byte is the one of the region the
    lookup returns. *)
Lemma image_byte_unique_owner ld address v r0 :
  ArbitraryLoader.region_from_address ld address = Some r0 ->
  (forall r, r ∈ ArbitraryLoader.regions ld ->
             ArbitraryLoader.owns r address = true -> r = r0) ->
  ArbitraryLoader.image_byte ld address v ->
  MemoryDescription.data r0
    !! Z.to_nat (address - MemoryDescription.base_address r0) = Some v.
Proof.
  unfold ArbitraryLoader.image_byte. intros -> Huniq (r & Hr & Hown & Hv).
  rewrite <- (Huniq r Hr Hown). exact Hv.
Qed.

(** C1.  A fill request that starts at or below the tracked maximum (so, in
    particular, one that starts within the tracked minimum-to-maximum range)
    is served: [loadFill] returns, and every one of the [sz] positions of
    the buffer holds the byte of a region that owns the position's address,
    at the corresponding index of that region, or zero when the lookup finds
    no owning region; where a single region owns the address, that is the
    region the lookup returns; the rest of the buffer is untouched.  For
    the single region [0x1000, 4, AA BB CC DD], filling [0x1000,4) gives
    AA BB CC DD and filling [0x0FFE,6) gives 00 00 AA BB CC DD, whatever the
    buffer held. *)
Theorem C1_loadFill_fills :
  (forall ld (buf : list Z) sz addr,
     ArbitraryLoader.wf ld -> is_u64 addr -> is_i32 sz ->
     sz <= Z.of_nat (length buf) ->
     addr <= ArbitraryLoader.max_addr ld ->
     exists out : list Z,
       ArbitraryLoader.loadFill ld buf sz addr = Ok out
       /\ length out = length buf
       /\ (forall i, 0 <= i < sz ->
             exists v, out !! Z.to_nat i = Some v
                       /\ ArbitraryLoader.image_byte ld (to_u64 (addr + i)) v)
       /\ (forall i r0, 0 <= i < sz ->
             ArbitraryLoader.region_from_address ld (to_u64 (addr + i)) = Some r0 ->
             (forall r, r ∈ ArbitraryLoader.regions ld ->
                        ArbitraryLoader.owns r (to_u64 (addr + i)) = true -> r = r0) ->
             out !! Z.to_nat i
             = MemoryDescription.data r0
                 !! Z.to_nat (to_u64 (addr + i) - MemoryDescription.base_address r0))
       /\ (forall n : nat, sz <= Z.of_nat n -> out !! n = buf !! n))
  /\ (forall b0 b1 b2 b3,
        ArbitraryLoader.loadFill loader_1000 [b0; b1; b2; b3] 4 0x1000
        = Ok [0xAA; 0xBB; 0xCC; 0xDD])
  /\ (forall b0 b1 b2 b3 b4 b5,
        ArbitraryLoader.loadFill loader_1000 [b0; b1; b2; b3; b4; b5] 6 0x0FFE
        = Ok [0; 0; 0xAA; 0xBB; 0xCC; 0xDD]).
Proof.
  split; [|split].
  - intros ld buf sz addr Hwf Ha Hsz Hbuf Hmax.
    destruct (loadFill_served ld buf sz addr Hwf Ha Hsz Hbuf Hmax)
      as (out & Hrun & Hlen & Hbytes & Hrest).
    exists out. split; [exact Hrun|]. split; [exact Hlen|].
    split; [exact Hbytes|]. split; [|exact Hrest].
    intros i r0 Hi Hlook Huniq. destruct (Hbytes i Hi) as (v & Hv & Himg).
    rewrite Hv. symmetry.
    exact (image_byte_unique_owner ld _ v r0 Hlook Huniq Himg).
  - intros. reflexivity.
  - intros. reflexivity.
Qed.

(** The theorem at the region [0x1000,4) and the request [0x1001,6), which
    starts inside the tracked range and runs past the end of the region. *)
Lemma C1_loadFill_fills_witness :
  ArbitraryLoader.loadFill loader_1000 [7; 7; 7; 7; 7; 7; 7] 6 0x1001
  = Ok [0xBB; 0xCC; 0xDD; 0; 0; 0; 7]
  /\ exists out : list Z,
       ArbitraryLoader.loadFill loader_1000 [7; 7; 7; 7; 7; 7; 7] 6 0x1001 = Ok out
       /\ length out = 7%nat
       /\ (forall i, 0 <= i < 6 ->
             exists v, out !! Z.to_nat i = Some v
                       /\ ArbitraryLoader.image_byte loader_1000 (to_u64 (0x1001 + i)) v)
       /\ (forall n : nat, 6 <= Z.of_nat n -> out !! n = [7; 7; 7; 7; 7; 7; 7] !! n).
Proof.
  split; [reflexivity|].
  destruct (proj1 C1_loadFill_fills loader_1000 [7; 7; 7; 7; 7; 7; 7] 6 0x1001)
    as (out & Hrun & Hlen & Hbytes & _ & Hrest).
  - repeat constructor; unfold is_u64; simpl; lia.
  - unfold is_u64. lia.
  - unfold is_i32. lia.
  - simpl. lia.
  - vm_compute. discriminate.
  - exists out. split; [exact Hrun|]. split; [exact Hlen|].
    split; [exact Hbytes | exact Hrest].
Defined.

(** Where regions overlap, the copy stays with the region found at the
    start of a run: 0x1002 is looked up as the region registered first, yet
    a fill that reaches it from 0x1000 takes its byte from the other
    region, which owns it too. *)
Lemma loadFill_overlap_keeps_current_region :
  ArbitraryLoader.region_from_address loader_inner_first 0x1002
  = Some (MemoryDescription.mk 0x1002 2 [0x11; 0x22])
  /\ ArbitraryLoader.loadFill loader_inner_first [0; 0; 0; 0] 4 0x1000
     = Ok [0xAA; 0xBB; 0xCC; 0xDD]
  /\ ArbitraryLoader.loadFill loader_inner_first [0; 0] 2 0x1002
     = Ok [0x11; 0x22].
Proof. repeat split. Qed.

(** ** C2 *)

(** C2, as stated, fails: a request entirely below the tracked minimum is
    not rejected.  Against the region [0x1000,4), the request [0x0FF0,4)
    ends below the minimum 0x1000, yet the four pre-seeded bytes FF are
    overwritten with zeros. *)
Lemma C2_below_min_not_rejected :
  outside_tracked_range loader_1000 0x0FF0 4
  /\ ArbitraryLoader.loadFill loader_1000 [0xFF; 0xFF; 0xFF; 0xFF] 4 0x0FF0
     = Ok [0; 0; 0; 0]
  /\ ~ (forall ld (buf : list Z) sz addr,
          ArbitraryLoader.wf ld -> is_u64 addr -> is_i32 sz ->
          sz <= Z.of_nat (length buf) ->
          outside_tracked_range ld addr sz ->
          ArbitraryLoader.loadFill ld buf sz addr = Ok buf).
Proof.
  assert (Hout : outside_tracked_range loader_1000 0x0FF0 4).
  { left. vm_compute. discriminate. }
  split; [exact Hout|]. split; [reflexivity|].
  intros Hclaim.
  specialize (Hclaim loader_1000 [0xFF; 0xFF; 0xFF; 0xFF] 4 0x0FF0).
  assert (Hwf : ArbitraryLoader.wf loader_1000).
  { repeat constructor; unfold is_u64; simpl; lia. }
  specialize (Hclaim Hwf ltac:(unfold is_u64; lia) ltac:(unfold is_i32; lia)
                ltac:(simpl; lia) Hout).
  vm_compute in Hclaim. discriminate Hclaim.
Qed.

(** C2, amended.  A fill request whose start address is above the tracked
    maximum (so every request entirely above it) makes [loadFill] return at
    once with the buffer exactly as the caller seeded it; and the tracked
    minimum takes no part in the outcome of any request. *)
Theorem C2_loadFill_above_max_untouched :
  (forall ld (buf : list Z) sz addr,
     ArbitraryLoader.max_addr ld < addr ->
     ArbitraryLoader.loadFill ld buf sz addr = Ok buf)
  /\ (forall ld m (buf : list Z) sz addr,
        ArbitraryLoader.loadFill
          (ArbitraryLoader.mk (ArbitraryLoader.max_addr ld) m
                              (ArbitraryLoader.regions ld)) buf sz addr
        = ArbitraryLoader.loadFill ld buf sz addr).
Proof.
  split.
  - intros ld buf sz addr Hgt. unfold ArbitraryLoader.loadFill.
    cbn [ArbitraryLoader.search_address].
    destruct (Z.gtb_spec addr (ArbitraryLoader.max_addr ld)); [reflexivity|lia].
  - intros ld m buf sz addr. unfold ArbitraryLoader.loadFill.
    cbn [ArbitraryLoader.search_address ArbitraryLoader.max_addr].
    destruct (addr >? ArbitraryLoader.max_addr ld); [reflexivity|].
    rewrite (fill_loop_regions _ _ ld); reflexivity.
Qed.

(** The theorem at the region [0x1000,4) and a request at 0x2000. *)
Lemma C2_loadFill_above_max_untouched_witness :
  ArbitraryLoader.loadFill loader_1000 [0xFF; 0xFF; 0xFF; 0xFF] 4 0x2000
  = Ok [0xFF; 0xFF; 0xFF; 0xFF].
Proof.
  apply (proj1 C2_loadFill_above_max_untouched loader_1000). reflexivity.
Defined.

(** ** C6 *)

Section LookupOrder.
Import MemoryDescription ArbitraryLoader.

Lemma owns_contains r address : owns r address = true <-> contains r address.
Proof.
  unfold owns, contains. rewrite andb_true_iff, !negb_true_iff.
  rewrite Z.gtb_ltb, Z.ltb_ge, Z.leb_gt. lia.
Qed.

Lemma scan_first rs address r :
  scan rs address = Some r <-> first_registered_owner rs address r.
Proof.
  split.
  - revert r. induction rs as [|g rest IH]; intros r; [discriminate|].
    rewrite scan_cons. destruct (owns g address) eqn:Hg.
    + intros [= <-]. exists O. split; [reflexivity|].
      split; [apply owns_contains, Hg|]. intros j r' Hj. lia.
    + intros H. destruct (IH r H) as (i & Hi & Hc & Hbefore).
      exists (S i). split; [exact Hi|]. split; [exact Hc|].
      intros [|j] r' Hj Hlook.
      * injection Hlook as <-. rewrite <- owns_contains, Hg. discriminate.
      * apply (Hbefore j r'); [lia | exact Hlook].
  - revert r. induction rs as [|g rest IH]; intros r (i & Hi & Hc & Hbefore).
    + destruct i; discriminate.
    + rewrite scan_cons. destruct i as [|i].
      * injection Hi as ->. apply owns_contains in Hc. rewrite Hc. reflexivity.
      * destruct (owns g address) eqn:Hg.
        { exfalso. apply (Hbefore O g); [lia | reflexivity | apply owns_contains, Hg]. }
        apply IH. exists i. split; [exact Hi|]. split; [exact Hc|].
        intros j r' Hj Hlook. apply (Hbefore (S j) r'); [lia | exact Hlook].
Qed.

Lemma scan_none rs address :
  scan rs address = None <-> forall r, r ∈ rs -> ~ contains r address.
Proof.
  split.
  - intros H r Hr Hc. apply owns_contains in Hc.
    rewrite (scan_None rs address H r Hr) in Hc. discriminate.
  - induction rs as [|g rest IH]; intros H; [reflexivity|].
    rewrite scan_cons. destruct (owns g address) eqn:Hg.
    + exfalso. apply (H g); [left | apply owns_contains, Hg].
    + apply IH. intros r Hr. apply H. right. exact Hr.
Qed.

End LookupOrder.

(** For well-typed fields the test holds exactly on the integer interval of
    a region that ends below 2^64. *)
Lemma contains_interval r address :
  is_u64 (MemoryDescription.base_address r) ->
  is_u64 (MemoryDescription.size r) ->
  contains r address
  <-> MemoryDescription.base_address r <= address
      /\ address < MemoryDescription.base_address r + MemoryDescription.size r
      /\ MemoryDescription.base_address r + MemoryDescription.size r < 2 ^ 64.
Proof.
  intros Hb Hs. split.
  - intros Hc. apply owns_contains in Hc.
    destruct (owns_interval r address Hb Hs Hc) as [Hi He]. lia.
  - intros (H1 & H2 & H3). unfold contains.
    rewrite to_u64_small by (unfold is_u64 in *; lia). lia.
Qed.

(** C6.  Regions are kept in registration order ([load_region] appends), and
    for every address [region_from_address] returns exactly the first
    region in that order with base <= address and base + size > address
    (the sum being the 64-bit one the code compares); so an address
    contained in at least one region yields the first-registered such
    region, and the lookup is null exactly when no region contains the
    address.  For a region that ends below 2^64 the test is membership in
    the integer interval from base to base + size. *)
Theorem C6_region_lookup_first_registered :
  forall ld address,
    (forall r, ArbitraryLoader.region_from_address ld address = Some r
               <-> first_registered_owner (ArbitraryLoader.regions ld) address r)
    /\ ((exists r, r ∈ ArbitraryLoader.regions ld /\ contains r address) ->
        exists r, ArbitraryLoader.region_from_address ld address = Some r
                  /\ first_registered_owner (ArbitraryLoader.regions ld) address r)
    /\ (ArbitraryLoader.region_from_address ld address = None
        <-> forall r, r ∈ ArbitraryLoader.regions ld -> ~ contains r address)
    /\ (forall a s d,
          ArbitraryLoader.regions (ArbitraryLoader.load_region ld a s d)
          = ArbitraryLoader.regions ld ++ [MemoryDescription.mk a s d])
    /\ (forall r,
          is_u64 (MemoryDescription.base_address r) ->
          is_u64 (MemoryDescription.size r) ->
          MemoryDescription.base_address r + MemoryDescription.size r < 2 ^ 64 ->
          contains r address
          <-> MemoryDescription.base_address r <= address
              < MemoryDescription.base_address r + MemoryDescription.size r).
Proof.
  intros ld address. unfold ArbitraryLoader.region_from_address.
  split; [intros r; apply scan_first|].
  split; [|split; [apply scan_none | split; [reflexivity|]]].
  - intros (r & Hr & Hc).
    destruct (ArbitraryLoader.scan (ArbitraryLoader.regions ld) address) as [r0|] eqn:Hs.
    + exists r0. split; [reflexivity|]. apply scan_first, Hs.
    + exfalso. exact (proj1 (scan_none _ _) Hs r Hr Hc).
  - intros r Hb Hs Hend. rewrite (contains_interval r address Hb Hs). lia.
Qed.

(** The theorem at two overlapping regions: 0x1003 lies in both, and the
    lookup yields the one registered first. *)
Lemma C6_region_lookup_first_registered_witness :
  (exists r,
     ArbitraryLoader.region_from_address loader_overlap 0x1003 = Some r
     /\ first_registered_owner (ArbitraryLoader.regions loader_overlap) 0x1003 r)
  /\ ArbitraryLoader.region_from_address loader_overlap 0x1003 = Some region_1000.
Proof.
  split; [|reflexivity].
  apply (proj1 (proj2 (C6_region_lookup_first_registered loader_overlap 0x1003))).
  exists (MemoryDescription.mk 0x1002 4 [0x11; 0x22; 0x33; 0x44]). split.
  - right. left.
  - split; vm_compute; [discriminate | reflexivity].
Defined.

(** ** The cursor of [translate_next] *)

Section Cursor.
Import MemoryDescription.

Lemma base_fold_le rs : forall b,
  fold_left (fun base r => if base_address r <? base then base_address r else base)
            rs b <= b
  /\ (forall r, r ∈ rs ->
        fold_left (fun base r => if base_address r <? base then base_address r else base)
                  rs b <= base_address r)
  /\ (fold_left (fun base r => if base_address r <? base then base_address r else base)
                rs b = b
      \/ exists r, r ∈ rs /\
           fold_left (fun base r => if base_address r <? base then base_address r else base)
                     rs b = base_address r).
Proof.
  induction rs as [|g rest IH]; intros b; simpl.
  - split; [lia|]. split; [|left; reflexivity]. intros r Hr. inversion Hr.
  - destruct (IH (if base_address g <? b then base_address g else b))
      as (Hle & Hall & Hwho).
    destruct (Z.ltb_spec (base_address g) b) as [Hlt|Hge].
    + split; [lia|]. split.
      * intros r Hr. apply elem_of_cons in Hr as [-> | Hr]; [exact Hle | exact (Hall r Hr)].
      * right. destruct Hwho as [Heq | (r & Hr & Heq)].
        { exists g. split; [left | exact Heq]. }
        { exists r. split; [right; exact Hr | exact Heq]. }
    + split; [lia|]. split.
      * intros r Hr. apply elem_of_cons in Hr as [-> | Hr]; [lia | exact (Hall r Hr)].
      * destruct Hwho as [Heq | (r & Hr & Heq)]; [left; exact Heq|].
        right. exists r. split; [right; exact Hr | exact Heq].
Qed.

(** [base()] is the lowest base address among the loaded regions. *)
Lemma base_lowest ld :
  ArbitraryLoader.wf ld -> ArbitraryLoader.regions ld <> [] ->
  (exists r, r ∈ ArbitraryLoader.regions ld
             /\ ArbitraryLoader.base ld = base_address r)
  /\ (forall r, r ∈ ArbitraryLoader.regions ld ->
                ArbitraryLoader.base ld <= base_address r).
Proof.
  intros Hwf Hne. unfold ArbitraryLoader.base.
  destruct (base_fold_le (ArbitraryLoader.regions ld) UINT64_MAX)
    as (Hle & Hall & Hwho).
  split; [|exact Hall].
  destruct Hwho as [Heq | Hex]; [|exact Hex].
  destruct (ArbitraryLoader.regions ld) as [|g rest] eqn:Hrs; [congruence|].
  exists g. split; [left|].
  assert (Hg : ArbitraryLoader.region_wf g).
  { apply (proj1 (Forall_forall _ _) Hwf). rewrite Hrs. left. }
  destruct Hg as ((_ & Hmax) & _).
  pose proof (Hall g ltac:(left)) as Hlow.
  rewrite Heq in Hlow |- *. unfold UINT64_MAX in *. lia.
Qed.

End Cursor.

Section Session.
Context {Eng : Type} {E : Sleigh Eng} {A : Allocator}.
Import ArbitraryManager.

Lemma derives_BadDataError c : derives c BadDataError = true <-> c = BadDataError.
Proof. destruct c; simpl; split; intros H; try reflexivity; discriminate. Qed.

Lemma derives_LowlevelError c : derives c LowlevelError = true.
Proof. destruct c; reflexivity. Qed.

(** A successful [translate_next], step by step. *)
Lemma translate_next_success (m : ArbitraryManager.t Eng) s1 calls n s2 pcalls len :
  printAssembly (sleigh m) (loader m) (translate_address m)
    = (s1, calls, Returns n) ->
  oneInstruction s1 (loader m) (translate_address m)
    = (s2, pcalls, Returns len) ->
  translate_next m =
  (mk (loader m) [] (ArbitraryAsmEmitter.clear (asm_emitter m)) s2
      (to_u64 (translate_address m + len)),
   Returns
     {| InsnDesc.op_count :=
          Z.of_nat (length (ArbitraryPcodeEmitter.receive (pcode_emitter m) pcalls));
        InsnDesc.ops := ArbitraryPcodeEmitter.receive (pcode_emitter m) pcalls;
        InsnDesc.size := to_u64 len;
        InsnDesc.address := uninit_u64;
        InsnDesc.insn :=
          ArbitraryAsmEmitter.insn_text
            (ArbitraryAsmEmitter.receive (asm_emitter m) calls);
        InsnDesc.insn_len :=
          ArbitraryAsmEmitter.insn_text_len
            (ArbitraryAsmEmitter.receive (asm_emitter m) calls);
        InsnDesc.body :=
          ArbitraryAsmEmitter.insn_body
            (ArbitraryAsmEmitter.receive (asm_emitter m) calls);
        InsnDesc.body_len :=
          ArbitraryAsmEmitter.insn_body_len
            (ArbitraryAsmEmitter.receive (asm_emitter m) calls) |}).
Proof.
  intros Hp Ho. unfold translate_next. rewrite Hp, Ho. reflexivity.
Qed.

(** A successful [lift_insn], step by step. *)
Lemma lift_insn_success (m : ArbitraryManager.t Eng) addr s1 calls n s2 pcalls len :
  printAssembly (sleigh m) (loader m) addr = (s1, calls, Returns n) ->
  oneInstruction s1 (loader m) addr = (s2, pcalls, Returns len) ->
  lift_insn m addr =
  (mk (loader m) [] (ArbitraryAsmEmitter.clear (asm_emitter m)) s2
      (current_translate_address m),
   Returns (Some
     {| InsnDesc.op_count :=
          Z.of_nat (length (ArbitraryPcodeEmitter.receive (pcode_emitter m) pcalls));
        InsnDesc.ops := ArbitraryPcodeEmitter.receive (pcode_emitter m) pcalls;
        InsnDesc.size := to_u64 len;
        InsnDesc.address := addr;
        InsnDesc.insn :=
          ArbitraryAsmEmitter.insn_text
            (ArbitraryAsmEmitter.receive (asm_emitter m) calls);
        InsnDesc.insn_len :=
          ArbitraryAsmEmitter.insn_text_len
            (ArbitraryAsmEmitter.receive (asm_emitter m) calls);
        InsnDesc.body :=
          ArbitraryAsmEmitter.insn_body
            (ArbitraryAsmEmitter.receive (asm_emitter m) calls);
        InsnDesc.body_len :=
          ArbitraryAsmEmitter.insn_body_len
            (ArbitraryAsmEmitter.receive (asm_emitter m) calls) |})).
Proof.
  intros Hp Ho. unfold lift_insn. rewrite Hp, Ho. reflexivity.
Qed.

Lemma catch_BadDataError_cursor (m : ArbitraryManager.t Eng) e :
  current_translate_address (fst (catch_BadDataError m e))
  = current_translate_address m.
Proof. unfold catch_BadDataError. destruct (derives _ _); reflexivity. Qed.

Lemma catch_BadDataError_result (m : ArbitraryManager.t Eng) e :
  snd (catch_BadDataError m e)
  = if derives (cls e) BadDataError then Returns None else Throws e.
Proof. unfold catch_BadDataError. destruct (derives _ _); reflexivity. Qed.

(** [lift_insn] never writes the cursor. *)
Lemma lift_insn_cursor (m : ArbitraryManager.t Eng) addr :
  current_translate_address (fst (lift_insn m addr)) = current_translate_address m.
Proof.
  unfold lift_insn.
  destruct (printAssembly (sleigh m) (loader m) addr) as [[s1 calls] [n|e]].
  - destruct (oneInstruction s1 (loader m) addr) as [[s2 pcalls] [len|e]].
    + reflexivity.
    + rewrite catch_BadDataError_cursor. reflexivity.
  - rewrite catch_BadDataError_cursor. reflexivity.
Qed.

(** Whatever [lift_insn] lets through is not a [BadDataError]. *)
Lemma lift_insn_no_BadDataError (m : ArbitraryManager.t Eng) addr e :
  snd (lift_insn m addr) = Throws e -> cls e <> BadDataError.
Proof.
  assert (Hcatch : forall (m' : ArbitraryManager.t Eng) e',
             snd (catch_BadDataError m' e') = Throws e -> cls e <> BadDataError).
  { intros m' e'. rewrite catch_BadDataError_result.
    destruct (derives (cls e') BadDataError) eqn:Hd; [discriminate|].
    intros [= <-] Hc. rewrite Hc in Hd. discriminate. }
  unfold lift_insn.
  destruct (printAssembly (sleigh m) (loader m) addr) as [[s1 calls] [n|e1]].
  - destruct (oneInstruction s1 (loader m) addr) as [[s2 pcalls] [len|e2]].
    + discriminate.
    + apply Hcatch.
  - apply Hcatch.
Qed.

End Session.

(** ** C3 *)

(** C3, as stated, fails when the first instruction ends exactly at the top
    of the address space.  With four bytes mapped at 0xFFFFFFFFFFFFFFFC and
    a four-byte instruction there, the first call decodes at that address
    and leaves the cursor at 0; the second call takes the cursor for "not
    started" and decodes at the same address again, not four bytes
    further: the engine is asked about the same address four times. *)
Lemma C3_cursor_wraps_to_start :
  let next := ArbitraryManager.translate_next (E := test_engine) (A := test_allocator) in
  let m1 := fst (next top_manager) in
  let m2 := fst (next m1) in
  ArbitraryManager.translate_address top_manager = 0xFFFFFFFFFFFFFFFC
  /\ (exists d, snd (next top_manager) = Returns d /\ InsnDesc.size d = 4)
  /\ ArbitraryManager.current_translate_address m1 = 0
  /\ ArbitraryManager.translate_address m1 = 0xFFFFFFFFFFFFFFFC
  /\ ArbitraryManager.translate_address m1
     <> ArbitraryManager.translate_address top_manager + 4
  /\ ~ (ArbitraryManager.translate_address top_manager
        < ArbitraryManager.translate_address m1)
  /\ ArbitraryManager.sleigh m2
     = [0xFFFFFFFFFFFFFFFC; 0xFFFFFFFFFFFFFFFC; 0xFFFFFFFFFFFFFFFC; 0xFFFFFFFFFFFFFFFC].
Proof.
  cbv zeta.
  split; [reflexivity|].
  split; [eexists; split; reflexivity|].
  split; [reflexivity|].
  split; [reflexivity|].
  split; [vm_compute; discriminate|].
  split; [vm_compute; intros H; discriminate H|].
  reflexivity.
Qed.

(** C3, amended.  [translate_next] decodes at the cursor, or at
    [loader.base()], the lowest base address of the loaded regions, while
    the cursor is 0, as it is on the first call; a successful call returns
    a descriptor whose size is the decoded length and moves the cursor to
    the decode address plus that length, modulo 2^64; unless that is 0, it
    is where the next call decodes; and when the length is positive and the
    instruction ends below 2^64, the next call decodes at exactly the first
    address plus the first instruction's length, which is a higher
    address. *)
Theorem C3_translate_next_advances :
  forall Eng (E : Sleigh Eng) (A : Allocator) (m : ArbitraryManager.t Eng)
         s1 calls n s2 pcalls len,
    printAssembly (ArbitraryManager.sleigh m) (ArbitraryManager.loader m)
                  (ArbitraryManager.translate_address m)
      = (s1, calls, Returns n) ->
    oneInstruction s1 (ArbitraryManager.loader m)
                   (ArbitraryManager.translate_address m)
      = (s2, pcalls, Returns len) ->
    (ArbitraryManager.current_translate_address m = 0 ->
       ArbitraryManager.translate_address m
       = ArbitraryLoader.base (ArbitraryManager.loader m)
       /\ (ArbitraryLoader.wf (ArbitraryManager.loader m) ->
           ArbitraryLoader.regions (ArbitraryManager.loader m) <> [] ->
           (exists r, r ∈ ArbitraryLoader.regions (ArbitraryManager.loader m)
                      /\ ArbitraryManager.translate_address m
                         = MemoryDescription.base_address r)
           /\ (forall r, r ∈ ArbitraryLoader.regions (ArbitraryManager.loader m) ->
                         ArbitraryManager.translate_address m
                         <= MemoryDescription.base_address r)))
    /\ exists m' d,
         ArbitraryManager.translate_next m = (m', Returns d)
         /\ InsnDesc.size d = to_u64 len
         /\ ArbitraryManager.loader m' = ArbitraryManager.loader m
         /\ ArbitraryManager.sleigh m' = s2
         /\ ArbitraryManager.current_translate_address m'
            = to_u64 (ArbitraryManager.translate_address m + len)
         /\ (to_u64 (ArbitraryManager.translate_address m + len) <> 0 ->
             ArbitraryManager.translate_address m'
             = to_u64 (ArbitraryManager.translate_address m + len))
         /\ (0 < len -> 0 <= ArbitraryManager.translate_address m ->
             ArbitraryManager.translate_address m + len < 2 ^ 64 ->
             ArbitraryManager.current_translate_address m'
             = ArbitraryManager.translate_address m + len
             /\ ArbitraryManager.translate_address m'
                = ArbitraryManager.translate_address m + len
             /\ ArbitraryManager.translate_address m
                < ArbitraryManager.translate_address m').
Proof.
  intros Eng E A m s1 calls n s2 pcalls len Hp Ho. split.
  - intros Hzero.
    assert (Ha : ArbitraryManager.translate_address m
                 = ArbitraryLoader.base (ArbitraryManager.loader m)).
    { unfold ArbitraryManager.translate_address. rewrite Hzero. reflexivity. }
    split; [exact Ha|]. intros Hwf Hne. rewrite Ha. apply base_lowest; assumption.
  - rewrite (translate_next_success m s1 calls n s2 pcalls len Hp Ho).
    eexists. eexists. split; [reflexivity|]. cbn.
    repeat (split; [reflexivity|]).
    split.
    { intros Hnz. unfold ArbitraryManager.translate_address at 1. cbn.
      destruct (Z.eqb_spec (to_u64 (ArbitraryManager.translate_address m + len)) 0);
        [contradiction | reflexivity]. }
    intros Hlen Ha Hend.
    assert (Hsmall : to_u64 (ArbitraryManager.translate_address m + len)
                     = ArbitraryManager.translate_address m + len).
    { apply to_u64_small. unfold is_u64. lia. }
    split; [exact Hsmall|].
    assert (Hnext : ArbitraryManager.translate_address
                      (ArbitraryManager.mk (ArbitraryManager.loader m) []
                         (ArbitraryAsmEmitter.clear (ArbitraryManager.asm_emitter m)) s2
                         (to_u64 (ArbitraryManager.translate_address m + len)))
                    = ArbitraryManager.translate_address m + len).
    { unfold ArbitraryManager.translate_address at 1. cbn. rewrite Hsmall.
      destruct (Z.eqb_spec (ArbitraryManager.translate_address m + len) 0); [lia|].
      reflexivity. }
    split; [exact Hnext|]. rewrite Hnext. lia.
Qed.

(** The theorem at a session with four bytes at 0x1000 and four-byte
    instructions: the first call decodes at 0x1000, the next at 0x1004. *)
Lemma C3_translate_next_advances_witness :
  ArbitraryManager.translate_address manager_1000
  = ArbitraryLoader.base (ArbitraryManager.loader manager_1000)
  /\ (forall r, r ∈ ArbitraryLoader.regions (ArbitraryManager.loader manager_1000) ->
                ArbitraryManager.translate_address manager_1000
                <= MemoryDescription.base_address r)
  /\ exists m' d,
       ArbitraryManager.translate_next (E := test_engine) (A := test_allocator)
         manager_1000 = (m', Returns d)
       /\ InsnDesc.size d = 4
       /\ ArbitraryManager.current_translate_address m' = 0x1004
       /\ ArbitraryManager.translate_address m' = 0x1004
       /\ ArbitraryManager.translate_address manager_1000
          < ArbitraryManager.translate_address m'.
Proof.
  destruct (C3_translate_next_advances (list Z) test_engine test_allocator
              manager_1000 [0x1000] [mkAsmDump 0x1000 "nop" ""] 4
              [0x1000; 0x1000] [mkPcodeDump 0x1000 1 None []] 4
              eq_refl eq_refl)
    as [Hfirst (m' & d & Hrun & Hsize & _ & _ & _ & _ & Hnext)].
  destruct (Hfirst eq_refl) as [Hbase Hlow].
  assert (Hwf : ArbitraryLoader.wf (ArbitraryManager.loader manager_1000)).
  { repeat constructor; unfold is_u64; simpl; lia. }
  destruct (Hlow Hwf ltac:(discriminate)) as [_ Hall].
  destruct Hnext as (Hcur & Hnxt & Hlt).
  { lia. }
  { vm_compute. discriminate. }
  { vm_compute. reflexivity. }
  split; [exact Hbase|]. split; [exact Hall|].
  exists m', d. split; [exact Hrun|]. split; [exact Hsize|].
  split; [exact Hcur|]. split; [exact Hnxt | exact Hlt].
Defined.

(** ** C4 *)

(** C4.  [lift_insn], and so the C entry point that forwards to it, never
    lets a [BadDataError] reach the caller: whether the engine reports the
    malformed encoding while printing or while lifting, the call returns
    the null result; and in every case, success, null result or another
    failure passing through, the cursor of [translate_next] is what it was
    before the call. *)
Theorem C4_lift_insn_swallows_bad_encoding :
  forall Eng (E : Sleigh Eng) (A : Allocator) (m : ArbitraryManager.t Eng) addr,
    (forall e, snd (ArbitraryManager.arbitrary_manager_lift_insn m addr) = Throws e ->
               cls e <> BadDataError)
    /\ (forall s1 calls e,
          printAssembly (ArbitraryManager.sleigh m) (ArbitraryManager.loader m) addr
            = (s1, calls, Throws e) ->
          cls e = BadDataError ->
          snd (ArbitraryManager.arbitrary_manager_lift_insn m addr) = Returns None)
    /\ (forall s1 calls n s2 pcalls e,
          printAssembly (ArbitraryManager.sleigh m) (ArbitraryManager.loader m) addr
            = (s1, calls, Returns n) ->
          oneInstruction s1 (ArbitraryManager.loader m) addr
            = (s2, pcalls, Throws e) ->
          cls e = BadDataError ->
          snd (ArbitraryManager.arbitrary_manager_lift_insn m addr) = Returns None)
    /\ ArbitraryManager.current_translate_address
         (fst (ArbitraryManager.arbitrary_manager_lift_insn m addr))
       = ArbitraryManager.current_translate_address m.
Proof.
  intros Eng E A m addr. unfold ArbitraryManager.arbitrary_manager_lift_insn.
  split; [intros e; apply lift_insn_no_BadDataError|].
  split; [|split; [|apply lift_insn_cursor]].
  - intros s1 calls e Hp Hc. unfold ArbitraryManager.lift_insn. rewrite Hp.
    rewrite catch_BadDataError_result, Hc. reflexivity.
  - intros s1 calls n s2 pcalls e Hp Ho Hc. unfold ArbitraryManager.lift_insn.
    rewrite Hp, Ho. rewrite catch_BadDataError_result, Hc. reflexivity.
Qed.

(** The theorem at an address whose bytes do not decode at all, and at one
    whose instruction prints but cannot be lifted. *)
Lemma C4_lift_insn_swallows_bad_encoding_witness :
  snd (ArbitraryManager.arbitrary_manager_lift_insn
         (E := test_engine) (A := test_allocator) manager_2000 0x3000)
  = Returns None
  /\ snd (ArbitraryManager.arbitrary_manager_lift_insn
            (E := test_engine) (A := test_allocator) manager_2000 0x2000)
     = Returns None.
Proof.
  split.
  - apply (proj1 (proj2 (C4_lift_insn_swallows_bad_encoding
                           (list Z) test_engine test_allocator manager_2000 0x3000))
             [0x3000] [] (mkexn BadDataError "bad encoding")); reflexivity.
  - apply (proj1 (proj2 (proj2 (C4_lift_insn_swallows_bad_encoding
                                  (list Z) test_engine test_allocator manager_2000 0x2000)))
             [0x2000] [mkAsmDump 0x2000 "nop" ""] 4 [0x2000; 0x2000] []
             (mkexn BadDataError "bad delay slot")); reflexivity.
Defined.

(** ** C5 *)

Section Collectors.
Context {Eng : Type} {E : Sleigh Eng} {A : Allocator}.
Import ArbitraryManager.

(** A decode that succeeds leaves both collectors cleared. *)
Lemma decode_success_clears (m : ArbitraryManager.t Eng) addr :
  (forall d, snd (translate_next m) = Returns d ->
             collectors_cleared (fst (translate_next m)))
  /\ (forall d, snd (lift_insn m addr) = Returns (Some d) ->
                collectors_cleared (fst (lift_insn m addr))).
Proof.
  split; intros d.
  - unfold translate_next.
    destruct (printAssembly _ _ _) as [[s1 calls] [n|e]]; [|discriminate].
    destruct (oneInstruction _ _ _) as [[s2 pcalls] [len|e]]; [|discriminate].
    intros _. split; reflexivity.
  - unfold lift_insn.
    destruct (printAssembly _ _ _) as [[s1 calls] [n|e]].
    + destruct (oneInstruction _ _ _) as [[s2 pcalls] [len|e]].
      * intros _. split; reflexivity.
      * rewrite catch_BadDataError_result. destruct (derives _ _); discriminate.
    + rewrite catch_BadDataError_result. destruct (derives _ _); discriminate.
Qed.

(** A decode at an address that prints and then fails to lift with a
    [BadDataError] returns the null result with both collectors as the
    engine's callbacks left them. *)
Lemma lift_insn_failure_keeps_collectors
    (m : ArbitraryManager.t Eng) addr s1 calls n s2 pcalls e :
  printAssembly (sleigh m) (loader m) addr = (s1, calls, Returns n) ->
  oneInstruction s1 (loader m) addr = (s2, pcalls, Throws e) ->
  cls e = BadDataError ->
  lift_insn m addr
  = (mk (loader m)
        (ArbitraryPcodeEmitter.receive (pcode_emitter m) pcalls)
        (ArbitraryAsmEmitter.receive (asm_emitter m) calls)
        s2 (current_translate_address m),
     Returns None).
Proof.
  intros Hp Ho Hc. unfold lift_insn. rewrite Hp, Ho.
  unfold catch_BadDataError. rewrite Hc. reflexivity.
Qed.

End Collectors.

(** C5 does not hold on a failed decode.  In the session with sixteen bytes at 0x2000,
    decoding at 0x2000 prints the instruction and then fails to lift it
    with a [BadDataError]: [lift_insn] returns the null result, and the
    assembly collector still holds the text, the body and the address the
    engine printed; it is not in its cleared state. *)
Theorem C5_failed_lift_leaves_collector_dirty :
  let r := ArbitraryManager.lift_insn (E := test_engine) (A := test_allocator)
             manager_2000 0x2000 in
  snd r = Returns None
  /\ ArbitraryAsmEmitter.insn_text (ArbitraryManager.asm_emitter (fst r))
     = Some "nop"%string
  /\ ArbitraryAsmEmitter.insn_body (ArbitraryManager.asm_emitter (fst r))
     = Some ""%string
  /\ ArbitraryAsmEmitter.address (ArbitraryManager.asm_emitter (fst r)) = 0x2000
  /\ ~ collectors_cleared (fst r).
Proof.
  cbv zeta. repeat (split; [reflexivity|]).
  intros [_ Hasm]. vm_compute in Hasm. discriminate Hasm.
Qed.

(** ** C8 *)

(** C8.  Whatever the key and the value, and whatever the engine does with
    them, the C entry point returns normally and returns nothing: when the
    engine fails, the failure is caught, one line with its explanation is
    appended to the standard output, and the outcome handed to the caller
    is the same as after a successful set. *)
Theorem C8_context_var_set_default_never_fails :
  forall Eng (E : Sleigh Eng) (A : Allocator) (mgr : ArbitraryManager.t Eng)
         (cout key : string) (value : Z),
    snd (ArbitraryManager.arbitrary_manager_context_var_set_default
           mgr cout key value) = Returns tt
    /\ snd (fst (ArbitraryManager.arbitrary_manager_context_var_set_default
                   mgr cout key value))
       = match snd (setVariableDefault (ArbitraryManager.sleigh mgr) key value) with
         | Returns _ => cout
         | Throws err =>
             (cout ++ "[libsla ERROR]: " ++ explain err
                   ++ ArbitraryManager.endl)%string
         end
    /\ ArbitraryManager.sleigh
         (fst (fst (ArbitraryManager.arbitrary_manager_context_var_set_default
                      mgr cout key value)))
       = fst (setVariableDefault (ArbitraryManager.sleigh mgr) key value).
Proof.
  intros Eng E A mgr cout key value.
  unfold ArbitraryManager.arbitrary_manager_context_var_set_default,
    ArbitraryManager.context_var_set_default.
  destruct (setVariableDefault (ArbitraryManager.sleigh mgr) key value)
    as [s1 [[]|err]]; cbn [fst snd].
  - repeat split.
  - rewrite derives_LowlevelError. repeat split.
Qed.

(** ** C9 *)

(** C9.  A successful [lift_insn] returns a descriptor whose address is the
    address it was called with.  [to_insn_desc] takes the size, the text
    and the body from the assembly collector and the operations from the
    micro-operation collector, and leaves the address field as the
    allocator handed it out, whatever the session holds; so the descriptor
    a successful [translate_next] returns carries that unassigned value,
    not the address decoded. *)
Theorem C9_only_lift_insn_assigns_address :
  forall Eng (E : Sleigh Eng) (A : Allocator) (m : ArbitraryManager.t Eng) addr,
    (forall d, snd (ArbitraryManager.lift_insn m addr) = Returns (Some d) ->
               InsnDesc.address d = addr)
    /\ InsnDesc.address (ArbitraryManager.to_insn_desc m) = uninit_u64
    /\ InsnDesc.size (ArbitraryManager.to_insn_desc m)
       = ArbitraryAsmEmitter.insn_size (ArbitraryManager.asm_emitter m)
    /\ InsnDesc.insn (ArbitraryManager.to_insn_desc m)
       = ArbitraryAsmEmitter.insn_text (ArbitraryManager.asm_emitter m)
    /\ InsnDesc.body (ArbitraryManager.to_insn_desc m)
       = ArbitraryAsmEmitter.insn_body (ArbitraryManager.asm_emitter m)
    /\ InsnDesc.ops (ArbitraryManager.to_insn_desc m)
       = ArbitraryManager.pcode_emitter m
    /\ (forall d, snd (ArbitraryManager.translate_next m) = Returns d ->
                  InsnDesc.address d = uninit_u64).
Proof.
  intros Eng E A m addr. split; [|repeat (split; [reflexivity|])].
  - intros d. unfold ArbitraryManager.lift_insn.
    destruct (printAssembly _ _ _) as [[s1 calls] [n|e]].
    + destruct (oneInstruction _ _ _) as [[s2 pcalls] [len|e]].
      * cbn. intros [= <-]. reflexivity.
      * rewrite catch_BadDataError_result. destruct (derives _ _); discriminate.
    + rewrite catch_BadDataError_result. destruct (derives _ _); discriminate.
  - intros d. unfold ArbitraryManager.translate_next.
    destruct (printAssembly _ _ _) as [[s1 calls] [n|e]]; [|discriminate].
    destruct (oneInstruction _ _ _) as [[s2 pcalls] [len|e]]; [|discriminate].
    cbn. intros [= <-]. reflexivity.
Qed.

(** The theorem at 0x2004 for [lift_insn] and at the first [translate_next]
    of another session, whose descriptor carries the allocator's value. *)
Lemma C9_only_lift_insn_assigns_address_witness :
  (exists d, snd (ArbitraryManager.lift_insn (E := test_engine) (A := test_allocator)
                    manager_2000 0x2004) = Returns (Some d)
             /\ InsnDesc.address d = 0x2004)
  /\ (exists d, snd (ArbitraryManager.translate_next (E := test_engine)
                       (A := test_allocator) manager_1000) = Returns d
                /\ InsnDesc.address d = 0xDEADBEEF).
Proof.
  split.
  - eexists. split; [reflexivity|].
    apply (proj1 (C9_only_lift_insn_assigns_address
                    (list Z) test_engine test_allocator manager_2000 0x2004)).
    reflexivity.
  - eexists. split; [reflexivity|].
    apply (proj2 (proj2 (proj2 (proj2 (proj2 (proj2
             (C9_only_lift_insn_assigns_address
                (list Z) test_engine test_allocator manager_1000 0))))))).
    reflexivity.
Defined.

(** ** C10 *)

(** C10.  The four accessors hand back what the library holds: the section
    count and the start address the library's own accessors report,
    unchanged by the widening to 64 bits, and the first and last section
    pointers of the structure as they are. *)
Theorem C10_bfd_accessors_rename :
  forall (bfd_count_sections bfd_get_start_address : bfd.t -> Z) (abfd : bfd.t),
    0 <= bfd_count_sections abfd < 2 ^ 32 ->
    is_u64 (bfd_get_start_address abfd) ->
    get_section_count bfd_count_sections abfd = bfd_count_sections abfd
    /\ get_start_address bfd_get_start_address abfd = bfd_get_start_address abfd
    /\ get_sections abfd = bfd.sections abfd
    /\ get_last_section abfd = bfd.section_last abfd.
Proof.
  intros count start abfd Hc Hs.
  unfold get_section_count, get_start_address.
  rewrite !to_u64_small; [repeat split | exact Hs | unfold is_u64; lia].
Qed.

(** The theorem at a file of 27 sections starting at 0x401000. *)
Lemma C10_bfd_accessors_rename_witness :
  let abfd := bfd.mk 0x5000 0x5400 in
  get_section_count (fun _ => 27) abfd = 27
  /\ get_start_address (fun _ => 0x401000) abfd = 0x401000
  /\ get_sections abfd = 0x5000
  /\ get_last_section abfd = 0x5400.
Proof.
  apply (C10_bfd_accessors_rename (fun _ => 27) (fun _ => 0x401000)
           (bfd.mk 0x5000 0x5400)); unfold is_u64; lia.
Defined.

(** ** C7 *)

Section BoundedCopies.

Lemma truncated_name_empty n : truncated_name n EmptyString = replicate n NUL.
Proof. unfold truncated_name. simpl. rewrite take_nil, Nat.sub_0_r. reflexivity. Qed.

Lemma truncated_name_length n name : length (truncated_name n name) = n.
Proof.
  unfold truncated_name. rewrite length_app, length_take, length_replicate. lia.
Qed.

(** [strncpy] rewrites the first [n] characters and nothing else. *)
Lemma strncpy_spec n : forall dest src,
  strncpy dest src n = truncated_name n src ++ drop n dest.
Proof.
  induction n as [|n IH]; intros dest src.
  - reflexivity.
  - assert (Hdrop : drop n (tail dest) = drop (S n) dest)
      by (destruct dest; simpl; [apply drop_nil | reflexivity]).
    destruct src as [|c src']; cbn [strncpy].
    + rewrite IH, Hdrop, !truncated_name_empty. reflexivity.
    + destruct (Ascii.eqb c NUL) eqn:Hc.
      * rewrite IH, Hdrop, truncated_name_empty.
        unfold truncated_name. cbn [c_str]. rewrite Hc. reflexivity.
      * rewrite IH, Hdrop. unfold truncated_name. cbn [c_str]. rewrite Hc.
        reflexivity.
Qed.

Lemma strncpy_array (field rest : list ascii) name n :
  length field = n ->
  strncpy (field ++ rest) name n = truncated_name n name ++ rest.
Proof.
  intros Hlen. rewrite strncpy_spec. f_equal.
  rewrite drop_app_length'; [reflexivity | symmetry; exact Hlen].
Qed.

Lemma strncpy_uninit {A : Allocator} n name :
  strncpy (uninit_chars n) name n = truncated_name n name.
Proof.
  rewrite <- (app_nil_r (uninit_chars n)).
  rewrite strncpy_array by apply length_replicate.
  apply app_nil_r.
Qed.

Lemma truncated_name_lookup n name (i : nat) :
  (i < n)%nat ->
  truncated_name n name !! i
  = Some (default NUL (list_ascii_of_string (c_str name) !! i)).
Proof.
  intros Hi. unfold truncated_name.
  set (cs := list_ascii_of_string (c_str name)).
  destruct (Nat.lt_ge_cases i (length cs)) as [Hlt|Hge].
  - rewrite lookup_app_l by (rewrite length_take; lia).
    rewrite lookup_take_lt by lia.
    destruct (lookup_lt_is_Some_2 cs i Hlt) as [c Hc]. rewrite Hc. reflexivity.
  - rewrite lookup_app_r by (rewrite length_take; lia).
    rewrite (lookup_ge_None_2 cs i) by lia.
    rewrite lookup_replicate_2; [reflexivity|].
    rewrite length_take. lia.
Qed.

Lemma truncated_name_long n name :
  (n <= length (list_ascii_of_string (c_str name)))%nat ->
  truncated_name n name = take n (list_ascii_of_string (c_str name)).
Proof.
  intros Hlen. unfold truncated_name.
  replace (n - length (list_ascii_of_string (c_str name)))%nat with O by lia.
  apply app_nil_r.
Qed.

End BoundedCopies.

(** C7.  Every name that goes into a fixed-size exported field is written
    by [strncpy] with the capacity of the field as its bound: the call
    rewrites exactly the characters of the field and leaves what follows
    the field as it was; the field holds the name, NUL-padded when shorter
    and cut to the capacity, without terminator, when longer; nothing
    reports the cut.  So each operand the micro-operation collector records
    (inputs, and the output when there is one) and each register of the
    register list is the exported form of what the engine gave: a name of
    sixteen (operands) or sixty-four (registers) characters, and the offset
    and the size unchanged. *)
Theorem C7_names_copied_bounded :
  forall (A : Allocator),
    (forall (field rest : list ascii) name n,
        length field = n ->
        strncpy (field ++ rest) name n = truncated_name n name ++ rest)
    /\ (forall n name,
          length (truncated_name n name) = n
          /\ (forall i : nat, (i < n)%nat ->
                truncated_name n name !! i
                = Some (default NUL (list_ascii_of_string (c_str name) !! i)))
          /\ ((n <= length (list_ascii_of_string (c_str name)))%nat ->
              truncated_name n name = take n (list_ascii_of_string (c_str name))))
    /\ (forall ops addr opcode output inputs,
          ArbitraryPcodeEmitter.dump ops addr opcode output inputs
          = ops ++ [ {| PcodeOp.opcode := opcode;
                        PcodeOp.output := option_map exported_operand output;
                        PcodeOp.input_len := to_u64 (Z.of_nat (length inputs));
                        PcodeOp.inputVarnodes := map exported_operand inputs |} ])
    /\ (forall Eng (E : Sleigh Eng) (m : ArbitraryManager.t Eng),
          ArbitraryManager.get_all_registers m
          = {| RegisterList.register_count :=
                 Z.of_nat (length (getAllRegisters (ArbitraryManager.sleigh m)));
               RegisterList.registers :=
                 map exported_register
                     (getAllRegisters (ArbitraryManager.sleigh m)) |})
    /\ (forall node,
          length (VarnodeDesc.space (exported_operand node)) = 16%nat
          /\ VarnodeDesc.offset (exported_operand node) = VarnodeData.offset node
          /\ VarnodeDesc.size (exported_operand node) = VarnodeData.size node)
    /\ (forall entry,
          length (RegisterDesc.name (exported_register entry)) = 64%nat
          /\ RegisterDesc.varnode (exported_register entry)
             = exported_operand (fst entry)).
Proof.
  intros A.
  split; [intros; apply strncpy_array; assumption|].
  split.
  { intros n name. split; [apply truncated_name_length|].
    split; [intros i; apply truncated_name_lookup | apply truncated_name_long]. }
  split.
  { intros ops addr opcode output inputs. unfold ArbitraryPcodeEmitter.dump.
    assert (Hin : forall node,
               {| VarnodeDesc.space :=
                    strncpy (uninit_chars 16) (VarnodeData.space node) 16;
                  VarnodeDesc.offset := VarnodeData.offset node;
                  VarnodeDesc.size := VarnodeData.size node |}
               = exported_operand node).
    { intros node. unfold exported_operand. rewrite strncpy_uninit. reflexivity. }
    rewrite (map_ext _ _ Hin).
    destruct output as [o|]; [rewrite Hin|]; reflexivity. }
  split.
  { intros Eng E m. unfold ArbitraryManager.get_all_registers. f_equal.
    apply map_ext. intros [vn name]. unfold exported_register, exported_operand.
    rewrite !strncpy_uninit. reflexivity. }
  split.
  { intros node. split; [apply truncated_name_length|]. split; reflexivity. }
  intros entry. split; [apply truncated_name_length | reflexivity].
Qed.

(** The theorem at a name of twenty-two characters copied into sixteen,
    followed by two characters that are not part of the field, and at a
    name of three characters. *)
Lemma C7_names_copied_bounded_witness :
  strncpy (uninit_chars (A := test_allocator) 16 ++ ["!"%char; "!"%char])
          "a_very_long_space_name" 16
  = list_ascii_of_string "a_very_long_spac" ++ ["!"%char; "!"%char]
  /\ truncated_name 16 "a_very_long_space_name"
     = take 16 (list_ascii_of_string "a_very_long_space_name")
  /\ truncated_name 16 "ram" !! 3%nat = Some NUL.
Proof.
  split; [|split].
  - exact (proj1 (C7_names_copied_bounded test_allocator)
             (uninit_chars (A := test_allocator) 16) ["!"%char; "!"%char]
             "a_very_long_space_name"%string 16%nat eq_refl).
  - apply (proj2 (proj2 (proj1 (proj2 (C7_names_copied_bounded test_allocator))
                           16%nat "a_very_long_space_name"%string))).
    simpl. lia.
  - apply (proj1 (proj2 (proj1 (proj2 (C7_names_copied_bounded test_allocator))
                           16%nat "ram"%string)) 3%nat).
    lia.
Defined.

(* ================================================================== *)
(** * Further properties of the loader *)
(* ================================================================== *)

Section LoaderInvariants.
Import MemoryDescription ArbitraryLoader.

Lemma built_min_addr_base ld : built ld -> min_addr ld = base ld.
Proof.
  induction 1 as [|ld address size input_data Hb IH Ha Hs]; [reflexivity|].
  unfold base, load_region. cbn [regions min_addr].
  rewrite fold_left_app. cbn [fold_left base_address].
  fold (base ld). rewrite IH. reflexivity.
Qed.

(** X1.  The minimum [load_region] keeps up to date is the value [base()]
    recomputes from the regions: on every loader built from the
    constructor's by [load_region] calls the two agree (both are
    0xFFFFFFFFFFFFFFFF while no region is loaded). *)
Theorem X1_min_addr_is_base :
  forall ld, built ld -> min_addr ld = base ld.
Proof. exact built_min_addr_base. Qed.

Lemma X1_min_addr_is_base_witness :
  min_addr loader_overlap = base loader_overlap.
Proof.
  apply X1_min_addr_is_base.
  repeat (apply built_load; [| unfold is_u64; lia | unfold is_u64; lia]).
  apply built_new.
Defined.





Lemma scan_app rs d address :
  scan (rs ++ [d]) address
  = match scan rs address with
    | Some r => Some r
    | None => if owns d address then Some d else None
    end.
Proof.
  induction rs as [|g rest IH].
  - simpl app. rewrite scan_cons. reflexivity.
  - simpl app. rewrite !scan_cons. destruct (owns g address); [reflexivity | exact IH].
Qed.

(** X3.  Loading a region never changes what an address already resolved
    to: a lookup that found a region finds the same one after any further
    [load_region]; an address that resolved to nothing resolves to the new
    region exactly when the new region passes the containment test. *)
Theorem X3_load_region_keeps_lookups :
  forall ld address size input_data a,
    region_from_address (load_region ld address size input_data) a
    = match region_from_address ld a with
      | Some r => Some r
      | None =>
          if owns (MemoryDescription.mk address size input_data) a
          then Some (MemoryDescription.mk address size input_data)
          else None
      end.
Proof.
  intros ld address size input_data a.
  unfold region_from_address, load_region. cbn [regions]. apply scan_app.
Qed.

End LoaderInvariants.

Section FillOutcomes.
Import MemoryDescription ArbitraryLoader.

(** When every byte the image can show at the requested addresses is the
    one [want] lists, the buffer after the fill is [want] followed by the
    untouched rest. *)
Lemma loadFill_determined ld (buf want : list Z) sz addr :
  wf ld -> is_u64 addr -> is_i32 sz -> sz <= Z.of_nat (length buf) ->
  addr <= max_addr ld ->
  length want = Z.to_nat sz ->
  (forall i v, 0 <= i < sz -> image_byte ld (to_u64 (addr + i)) v ->
               want !! Z.to_nat i = Some v) ->
  loadFill ld buf sz addr = Ok (want ++ drop (Z.to_nat sz) buf).
Proof.
  intros Hwf Ha Hsz Hbuf Hmax Hlen Hwant.
  destruct (loadFill_served ld buf sz addr Hwf Ha Hsz Hbuf Hmax)
    as (out & Hrun & Hout & Hbytes & Hrest).
  rewrite Hrun. f_equal. apply list_eq. intros n.
  destruct (Z_lt_ge_dec (Z.of_nat n) sz) as [Hlt|Hge].
  - destruct (Hbytes (Z.of_nat n) ltac:(lia)) as (v & Hv & Himg).
    rewrite Nat2Z.id in Hv. rewrite Hv.
    rewrite lookup_app_l by lia.
    specialize (Hwant (Z.of_nat n) v ltac:(lia) Himg).
    rewrite Nat2Z.id in Hwant. symmetry. exact Hwant.
  - rewrite (Hrest n) by lia.
    rewrite lookup_app_r by lia. rewrite lookup_drop. f_equal. lia.
Qed.

(** X4.  What is loaded is read back: after [load_region] of [size] bytes
    at an address range no earlier region owns any part of, a fill of
    exactly that range returns the first [size] bytes of the caller's
    data, and leaves the rest of the buffer alone. *)
Theorem X4_load_then_fill_reads_back :
  forall ld address size input_data (buf : list Z),
    wf ld -> is_u64 address -> 0 <= size < 2 ^ 31 ->
    address + size < 2 ^ 64 ->
    size <= Z.of_nat (length input_data) ->
    size <= Z.of_nat (length buf) ->
    (forall a r, address <= a < address + size -> r ∈ regions ld ->
                 owns r a = false) ->
    loadFill (load_region ld address size input_data) buf size address
    = Ok (take (Z.to_nat size) input_data ++ drop (Z.to_nat size) buf).
Proof.
  intros ld address size input_data buf Hwf Ha Hs Hend Hdata Hbuf Hfree.
  set (new := MemoryDescription.mk address size input_data).
  assert (Hwf' : wf (load_region ld address size input_data)).
  { unfold wf, load_region. cbn [regions]. apply Forall_app. split; [exact Hwf|].
    constructor; [|constructor]. unfold region_wf, is_u64 in *. cbn. lia. }
  assert (Hsum : to_u64 (address + size) = address + size).
  { apply to_u64_small. unfold is_u64 in *. lia. }
  apply loadFill_determined; try assumption.
  - unfold is_i32. lia.
  - unfold load_region. cbn [max_addr]. rewrite Hsum.
    destruct (address + size >? max_addr ld) eqn:Hcmp; [lia|].
    rewrite Z.gtb_ltb, Z.ltb_ge in Hcmp. lia.
  - rewrite length_take. lia.
  - intros i v Hi Himg.
    rewrite to_u64_small in Himg by (unfold is_u64 in *; lia).
    assert (Hown : owns new (address + i) = true).
    { unfold owns, new. cbn [base_address MemoryDescription.size]. rewrite Hsum.
      destruct (Z.gtb_spec address (address + i)); [lia|].
      destruct (Z.leb_spec (address + size) (address + i)); [lia|]. reflexivity. }
    assert (Hnew : new ∈ regions (load_region ld address size input_data)).
    { unfold load_region. cbn [regions]. apply elem_of_app. right. left. }
    unfold image_byte, region_from_address in Himg.
    destruct (scan _ (address + i)) eqn:Hscan.
    + destruct Himg as (r & Hr & Hro & Hv).
      unfold load_region in Hr. cbn [regions] in Hr.
      apply elem_of_app in Hr as [Hr | Hr].
      * rewrite (Hfree (address + i) r ltac:(lia) Hr) in Hro. discriminate.
      * apply list_elem_of_singleton in Hr as ->. cbn [base_address data] in Hv.
        replace (address + i - address) with i in Hv by lia.
        rewrite lookup_take_lt by lia. exact Hv.
    + rewrite (scan_None _ _ Hscan new Hnew) in Hown. discriminate.
Qed.

Lemma X4_load_then_fill_reads_back_witness :
  loadFill (load_region loader_1000 0x2000 3 [1; 2; 3; 4]) [9; 9; 9; 9; 9] 3 0x2000
  = Ok [1; 2; 3; 9; 9].
Proof.
  apply (X4_load_then_fill_reads_back loader_1000 0x2000 3 [1; 2; 3; 4] [9; 9; 9; 9; 9]).
  - repeat constructor; unfold is_u64; simpl; lia.
  - unfold is_u64. lia.
  - lia.
  - lia.
  - simpl. lia.
  - simpl. lia.
  - intros a r Ha Hr. apply list_elem_of_singleton in Hr as ->.
    unfold owns. cbn [base_address MemoryDescription.size].
    replace (to_u64 (4096 + 4)) with 4100 by reflexivity.
    destruct (Z.gtb_spec 4096 a); [reflexivity|].
    destruct (Z.leb_spec 4100 a); [reflexivity|lia].
Defined.

Lemma fill_unowned_zero ld (buf : list Z) sz addr :
  wf ld -> is_u64 addr -> is_i32 sz -> sz <= Z.of_nat (length buf) ->
  addr <= max_addr ld ->
  (forall i, 0 <= i < sz -> region_from_address ld (to_u64 (addr + i)) = None) ->
  loadFill ld buf sz addr
  = Ok (replicate (Z.to_nat sz) 0 ++ drop (Z.to_nat sz) buf).
Proof.
  intros Hwf Ha Hsz Hbuf Hmax Hnone.
  apply loadFill_determined; try assumption.
  - apply length_replicate.
  - intros i v Hi Himg. unfold image_byte in Himg. rewrite (Hnone i Hi) in Himg.
    subst v. apply lookup_replicate_2. lia.
Qed.

(** X5.  A request that is not rejected and covers no owned address comes
    back as zeros: the gap between two regions, or a range below every
    region, reads as zero bytes. *)
Theorem X5_unowned_range_reads_zero :
  forall ld (buf : list Z) sz addr,
    wf ld -> is_u64 addr -> is_i32 sz -> sz <= Z.of_nat (length buf) ->
    addr <= max_addr ld ->
    (forall i, 0 <= i < sz -> region_from_address ld (to_u64 (addr + i)) = None) ->
    loadFill ld buf sz addr
    = Ok (replicate (Z.to_nat sz) 0 ++ drop (Z.to_nat sz) buf).
Proof. exact fill_unowned_zero. Qed.

Lemma X5_unowned_range_reads_zero_witness :
  loadFill loader_1000 [9; 9; 9] 2 0x0800 = Ok [0; 0; 9].
Proof.
  apply (X5_unowned_range_reads_zero loader_1000 [9; 9; 9] 2 0x0800).
  - repeat constructor; unfold is_u64; simpl; lia.
  - unfold is_u64. lia.
  - unfold is_i32. lia.
  - simpl. lia.
  - vm_compute. discriminate.
  - intros i Hi. rewrite to_u64_small by (unfold is_u64; lia).
    unfold region_from_address. cbn [regions loader_1000 load_region new app].
    rewrite scan_cons. unfold owns. cbn [base_address].
    destruct (Z.gtb_spec 4096 (2048 + i)); [reflexivity|lia].
Defined.

(** X6.  A request for no bytes, or for a negative number of bytes, writes
    nothing, whatever the address. *)
Theorem X6_nonpositive_size_writes_nothing :
  forall ld (buf : list Z) sz addr,
    sz <= 0 -> loadFill ld buf sz addr = Ok buf.
Proof.
  intros ld buf sz addr Hsz. unfold loadFill. cbn [search_address].
  destruct (addr >? max_addr ld); [reflexivity|].
  replace (Z.to_nat sz) with O by lia. cbn [fill_loop bytes_remaining].
  destruct (Z.gtb_spec sz 0); [lia|]. reflexivity.
Qed.

Lemma X6_nonpositive_size_writes_nothing_witness :
  loadFill loader_1000 [9; 9] 0 0x1000 = Ok [9; 9]
  /\ loadFill loader_1000 [9; 9] (-1) 0x1000 = Ok [9; 9].
Proof.
  split; apply X6_nonpositive_size_writes_nothing; lia.
Defined.



End FillOutcomes.

(* ================================================================== *)
(** * Further properties of the session *)
(* ================================================================== *)

Section SessionFlow.
Context {Eng : Type} {E : Sleigh Eng} {A : Allocator}.
Import ArbitraryManager.

Lemma catch_BadDataError_state (m : ArbitraryManager.t Eng) e :
  fst (catch_BadDataError m e) = m.
Proof. unfold catch_BadDataError. destruct (derives _ _); reflexivity. Qed.

Lemma lift_insn_loader (m : ArbitraryManager.t Eng) addr :
  loader (fst (lift_insn m addr)) = loader m.
Proof.
  unfold lift_insn.
  destruct (printAssembly _ _ _) as [[s1 calls] [n|e]].
  - destruct (oneInstruction _ _ _) as [[s2 pcalls] [len|e]].
    + reflexivity.
    + rewrite catch_BadDataError_state. reflexivity.
  - rewrite catch_BadDataError_state. reflexivity.
Qed.

Lemma not_started_state (m : ArbitraryManager.t Eng) :
  not_started m -> current_translate_address m = 0 /\ built (loader m).
Proof.
  induction 1 as [engine | m address size data Hns [IHc IHb] Ha Hs
                  | m addr Hns [IHc IHb]].
  - split; [reflexivity | apply built_new].
  - split; [exact IHc|]. cbn [load_data loader]. apply built_load; assumption.
  - rewrite lift_insn_cursor, lift_insn_loader. split; assumption.
Qed.

(** X7.  Until [translate_next] has run, whatever was loaded and whatever
    addresses were probed with [lift_insn], the next [translate_next]
    decodes at the minimum address the loader tracks, which is the lowest
    base address loaded (0xFFFFFFFFFFFFFFFF in a session without
    regions). *)
Theorem X7_first_decode_at_tracked_minimum :
  forall m : ArbitraryManager.t Eng,
    not_started m ->
    translate_address m = ArbitraryLoader.min_addr (loader m)
    /\ translate_address m = ArbitraryLoader.base (loader m)
    /\ (ArbitraryLoader.regions (loader m) = [] ->
        translate_address m = 0xFFFFFFFFFFFFFFFF).
Proof.
  intros m Hns. destruct (not_started_state m Hns) as [Hc Hb].
  assert (Hbase : translate_address m = ArbitraryLoader.base (loader m)).
  { unfold translate_address. rewrite Hc. reflexivity. }
  split; [rewrite Hbase; symmetry; apply built_min_addr_base, Hb|].
  split; [exact Hbase|].
  intros Hnil. rewrite Hbase. unfold ArbitraryLoader.base. rewrite Hnil. reflexivity.
Qed.

(** X8.  A [translate_next] that ends with an exception does not advance:
    the image is unchanged and the next call decodes at the same address
    again. *)
Theorem X8_failed_translate_next_does_not_advance :
  forall (m : ArbitraryManager.t Eng) e,
    snd (translate_next m) = Throws e ->
    loader (fst (translate_next m)) = loader m
    /\ translate_address (fst (translate_next m)) = translate_address m.
Proof.
  intros m e.
  assert (Hsame : forall ops asm (s : Eng),
             translate_address (mk (loader m) ops asm s (translate_address m))
             = translate_address m).
  { intros ops asm s. unfold translate_address at 1. cbn [current_translate_address loader].
    destruct (Z.eqb_spec (translate_address m) 0) as [Hz|Hnz]; [|reflexivity].
    unfold translate_address in Hz |- *.
    destruct (Z.eqb_spec (current_translate_address m) 0); [reflexivity|].
    congruence. }
  unfold translate_next.
  destruct (printAssembly _ _ _) as [[s1 calls] [n|e1]].
  - destruct (oneInstruction _ _ _) as [[s2 pcalls] [len|e2]]; [discriminate|].
    intros _. split; [reflexivity | apply Hsame].
  - intros _. split; [reflexivity | apply Hsame].
Qed.

(** X9.  [lift_insn] does not disturb the stream of [translate_next]: on
    every path it leaves the image as it was and the address the next
    [translate_next] decodes at unchanged. *)
Theorem X9_lift_insn_keeps_stream :
  forall (m : ArbitraryManager.t Eng) addr,
    loader (fst (lift_insn m addr)) = loader m
    /\ translate_address (fst (lift_insn m addr)) = translate_address m.
Proof.
  intros m addr. split; [apply lift_insn_loader|].
  unfold translate_address. rewrite lift_insn_cursor, lift_insn_loader. reflexivity.
Qed.

Lemma pcode_dump_exported (ops : ArbitraryPcodeEmitter.t) c :
  ArbitraryPcodeEmitter.dump ops (pd_addr c) (pd_opcode c) (pd_output c) (pd_inputs c)
  = ops ++ [exported_op c].
Proof.
  unfold ArbitraryPcodeEmitter.dump, exported_op.
  assert (Hin : forall node,
             {| VarnodeDesc.space :=
                  strncpy (uninit_chars 16) (VarnodeData.space node) 16;
                VarnodeDesc.offset := VarnodeData.offset node;
                VarnodeDesc.size := VarnodeData.size node |}
             = exported_operand node).
  { intros node. unfold exported_operand. rewrite strncpy_uninit. reflexivity. }
  rewrite (map_ext _ _ Hin).
  destruct (pd_output c) as [o|]; [rewrite Hin|]; reflexivity.
Qed.

Lemma pcode_receive_exported calls : forall ops : ArbitraryPcodeEmitter.t,
  ArbitraryPcodeEmitter.receive ops calls = ops ++ map exported_op calls.
Proof.
  unfold ArbitraryPcodeEmitter.receive.
  induction calls as [|c calls IH]; intros ops; cbn [fold_left map].
  - symmetry. apply app_nil_r.
  - rewrite pcode_dump_exported, IH, <- app_assoc. reflexivity.
Qed.

(** X10.  A decode that succeeds returns the micro-operations the collector
    already held followed by one record per callback of this decode, in
    callback order, and counts them all; so from an empty collector the
    descriptor holds exactly this instruction's operations. *)
Theorem X10_one_operation_per_callback :
  forall (m : ArbitraryManager.t Eng) addr s1 calls n s2 pcalls len,
    printAssembly (sleigh m) (loader m) addr = (s1, calls, Returns n) ->
    oneInstruction s1 (loader m) addr = (s2, pcalls, Returns len) ->
    exists d,
      snd (lift_insn m addr) = Returns (Some d)
      /\ InsnDesc.ops d = pcode_emitter m ++ map exported_op pcalls
      /\ InsnDesc.op_count d
         = Z.of_nat (length (pcode_emitter m)) + Z.of_nat (length pcalls)
      /\ (pcode_emitter m = [] -> InsnDesc.ops d = map exported_op pcalls).
Proof.
  intros m addr s1 calls n s2 pcalls len Hp Ho.
  rewrite (lift_insn_success m addr s1 calls n s2 pcalls len Hp Ho).
  eexists. split; [reflexivity|]. cbn [InsnDesc.ops InsnDesc.op_count].
  rewrite pcode_receive_exported. split; [reflexivity|].
  split; [rewrite length_app, length_map; lia|].
  intros ->. reflexivity.
Qed.

Lemma asm_receive_insn_size calls : forall em,
  ArbitraryAsmEmitter.insn_size (ArbitraryAsmEmitter.receive em calls)
  = ArbitraryAsmEmitter.insn_size em.
Proof.
  unfold ArbitraryAsmEmitter.receive.
  induction calls as [|c calls IH]; intros em; cbn [fold_left]; [reflexivity|].
  rewrite IH. reflexivity.
Qed.

(** X11.  The assembly collector keeps one instruction: after the callbacks
    of an engine call it holds the address, text and body of the last
    callback only, with the instruction size it had before; with no
    callback at all it is as it was. *)
Theorem X11_last_assembly_callback_wins :
  forall em calls c,
    ArbitraryAsmEmitter.receive em (calls ++ [c])
    = {| ArbitraryAsmEmitter.insn_size := ArbitraryAsmEmitter.insn_size em;
         ArbitraryAsmEmitter.address := ad_addr c;
         ArbitraryAsmEmitter.insn_text := Some (c_str (ad_text c));
         ArbitraryAsmEmitter.insn_text_len := Z.of_nat (String.length (ad_text c));
         ArbitraryAsmEmitter.insn_body := Some (c_str (ad_body c));
         ArbitraryAsmEmitter.insn_body_len := Z.of_nat (String.length (ad_body c)) |}.
Proof.
  intros em calls c. unfold ArbitraryAsmEmitter.receive.
  rewrite fold_left_app. cbn [fold_left].
  unfold ArbitraryAsmEmitter.dump at 1.
  fold (ArbitraryAsmEmitter.receive em calls).
  rewrite asm_receive_insn_size. reflexivity.
Qed.

End SessionFlow.

(** The theorem at the session with sixteen bytes at 0x2000, probed once
    before the first [translate_next]. *)
Lemma X7_first_decode_at_tracked_minimum_witness :
  let m := fst (ArbitraryManager.lift_insn (E := test_engine) (A := test_allocator)
                  manager_2000 0x2004) in
  ArbitraryManager.translate_address m = 0x2000.
Proof.
  cbv zeta.
  refine (proj1 (X7_first_decode_at_tracked_minimum
                   (E := test_engine) (A := test_allocator) _ _)).
  apply ns_lift. unfold manager_2000, test_manager.
  apply ns_load; [apply ns_new | unfold is_u64; lia | unfold is_u64; lia].
Defined.

(** The theorem at 0x2000 of the same session, where the instruction prints
    and then fails to lift. *)
Lemma X8_failed_translate_next_does_not_advance_witness :
  let r := ArbitraryManager.translate_next (E := test_engine) (A := test_allocator)
             manager_2000 in
  snd r = Throws (mkexn BadDataError "bad delay slot")
  /\ ArbitraryManager.translate_address (fst r) = 0x2000.
Proof.
  cbv zeta. split; [reflexivity|].
  exact (proj2 (X8_failed_translate_next_does_not_advance
                  (E := test_engine) (A := test_allocator) manager_2000
                  (mkexn BadDataError "bad delay slot") eq_refl)).
Defined.

(** The theorem at 0x2004 of the same session. *)
Lemma X10_one_operation_per_callback_witness :
  exists d,
    snd (ArbitraryManager.lift_insn (E := test_engine) (A := test_allocator)
           manager_2000 0x2004) = Returns (Some d)
    /\ InsnDesc.ops d = [exported_op (mkPcodeDump 0x2004 1 None [])]
    /\ InsnDesc.op_count d = 1.
Proof.
  destruct (X10_one_operation_per_callback
              (E := test_engine) (A := test_allocator) manager_2000 0x2004
              [0x2004] [mkAsmDump 0x2004 "nop" ""] 4
              [0x2004; 0x2004] [mkPcodeDump 0x2004 1 None []] 4 eq_refl eq_refl)
    as (d & Hrun & Hops & Hcount & _).
  exists d. split; [exact Hrun|]. split; [exact Hops | exact Hcount].
Defined.

(** ** Texts and names *)

Section Texts.

Lemma c_str_length s : (String.length (c_str s) <= String.length s)%nat.
Proof.
  induction s as [|c s IH]; cbn [c_str]; [lia|].
  destruct (Ascii.eqb c NUL); cbn [String.length]; lia.
Qed.

Lemma c_str_no_NUL s : has_NUL (c_str s) = false.
Proof.
  induction s as [|c s IH]; cbn [c_str]; [reflexivity|].
  destruct (Ascii.eqb c NUL) eqn:Hc; [reflexivity|].
  cbn [has_NUL]. rewrite Hc, IH. reflexivity.
Qed.

Lemma c_str_id_iff s : c_str s = s <-> has_NUL s = false.
Proof.
  split.
  - intros <-. apply c_str_no_NUL.
  - induction s as [|c s IH]; cbn [has_NUL c_str]; [reflexivity|].
    destruct (Ascii.eqb c NUL); [discriminate|]. cbn [orb].
    intros H. rewrite (IH H). reflexivity.
Qed.

Lemma c_str_full_length s :
  String.length (c_str s) = String.length s <-> has_NUL s = false.
Proof.
  split.
  - induction s as [|c s IH]; cbn [has_NUL c_str]; [reflexivity|].
    destruct (Ascii.eqb c NUL); cbn [String.length orb]; [discriminate|].
    intros H. apply IH. lia.
  - intros H. apply c_str_id_iff in H. rewrite H. reflexivity.
Qed.

(** X12.  The text the assembly collector keeps is the C string of what the
    engine printed, while the length beside it is the full length of the
    engine's string: the length is never smaller than the kept text, and
    the two agree exactly when the printed text holds no NUL character. *)
Theorem X12_text_length_covers_kept_text :
  forall em addr text body,
    exists t,
      ArbitraryAsmEmitter.insn_text (ArbitraryAsmEmitter.dump em addr text body)
      = Some t
      /\ Z.of_nat (String.length t)
         <= ArbitraryAsmEmitter.insn_text_len (ArbitraryAsmEmitter.dump em addr text body)
      /\ (Z.of_nat (String.length t)
          = ArbitraryAsmEmitter.insn_text_len (ArbitraryAsmEmitter.dump em addr text body)
          <-> has_NUL text = false).
Proof.
  intros em addr text body. exists (c_str text).
  cbn [ArbitraryAsmEmitter.dump ArbitraryAsmEmitter.insn_text
       ArbitraryAsmEmitter.insn_text_len].
  unfold strdup, string_size. split; [reflexivity|].
  pose proof (c_str_length text). split; [lia|].
  rewrite <- c_str_full_length. lia.
Qed.



Lemma c_str_chars_no_NUL s : NUL ∉ list_ascii_of_string (c_str s).
Proof.
  induction s as [|c s IH]; cbn [c_str].
  - cbn. apply not_elem_of_nil.
  - destruct (Ascii.eqb c NUL) eqn:Hc.
    + cbn. apply not_elem_of_nil.
    + cbn [list_ascii_of_string]. apply not_elem_of_cons. split; [|exact IH].
      intros Heq. rewrite <- Heq, Ascii.eqb_refl in Hc. discriminate.
Qed.

Lemma chars_length s : length (list_ascii_of_string s) = String.length s.
Proof. induction s as [|c s IH]; cbn; [reflexivity | rewrite IH; reflexivity]. Qed.

(** X14.  A name field ends up NUL-terminated exactly when the name is
    shorter than the field: a name of the field's capacity or more fills
    the field to its last character and leaves no terminator in it. *)
Theorem X14_field_terminated_iff_name_shorter :
  forall (A : Allocator) (n : nat) (name : string),
    NUL ∈ strncpy (uninit_chars n) name n
    <-> (String.length (c_str name) < n)%nat.
Proof.
  intros A n name. rewrite strncpy_uninit. unfold truncated_name.
  rewrite <- (chars_length (c_str name)).
  set (cs := list_ascii_of_string (c_str name)).
  pose proof (c_str_chars_no_NUL name) as Hno. fold cs in Hno.
  rewrite elem_of_app. split.
  - intros [Hin | Hin].
    + exfalso. apply Hno. apply elem_of_take in Hin as (i & Hi & _).
      apply list_elem_of_lookup. exists i. exact Hi.
    + destruct (Nat.lt_ge_cases (length cs) n) as [Hlt|Hge]; [exact Hlt|].
      replace (n - length cs)%nat with O in Hin by lia. inversion Hin.
  - intros Hlt. right. apply elem_of_replicate. split; [reflexivity | lia].
Qed.

End Texts.

(** ** Successive decodes *)

Section Successive.
Context {Eng : Type} {E : Sleigh Eng} {A : Allocator}.
Import ArbitraryManager.

(** X16.  Successful decodes do not mix: in the session a successful
    [translate_next] or [lift_insn] leaves behind, a [lift_insn] that
    succeeds returns exactly one operation per callback of its own decode,
    and, when the engine printed nothing, null text and body rather than
    those of the instruction before; and it leaves both collectors cleared
    in turn. *)
Theorem X16_successive_decodes_do_not_mix :
  forall (m m1 : ArbitraryManager.t Eng) addr s1 calls n s2 pcalls len,
    (exists d, snd (translate_next m) = Returns d /\ m1 = fst (translate_next m))
    \/ (exists a d, snd (lift_insn m a) = Returns (Some d)
                    /\ m1 = fst (lift_insn m a)) ->
    printAssembly (sleigh m1) (loader m1) addr = (s1, calls, Returns n) ->
    oneInstruction s1 (loader m1) addr = (s2, pcalls, Returns len) ->
    exists d2,
      snd (lift_insn m1 addr) = Returns (Some d2)
      /\ InsnDesc.ops d2 = map exported_op pcalls
      /\ InsnDesc.op_count d2 = Z.of_nat (length pcalls)
      /\ (calls = [] -> InsnDesc.insn d2 = None /\ InsnDesc.body d2 = None)
      /\ collectors_cleared (fst (lift_insn m1 addr)).
Proof.
  intros m m1 addr s1 calls n s2 pcalls len Hfirst Hp Ho.
  assert (Hclear : collectors_cleared m1).
  { destruct Hfirst as [(d & Hd & ->) | (a & d & Hd & ->)].
    - exact (proj1 (decode_success_clears m 0) d Hd).
    - exact (proj2 (decode_success_clears m a) d Hd). }
  destruct Hclear as [Hops Hasm].
  rewrite (lift_insn_success m1 addr s1 calls n s2 pcalls len Hp Ho).
  eexists. split; [reflexivity|].
  cbn [InsnDesc.ops InsnDesc.op_count InsnDesc.insn InsnDesc.body fst].
  rewrite pcode_receive_exported, Hops. cbn [app].
  split; [reflexivity|]. split; [rewrite length_map; reflexivity|].
  split; [|split; reflexivity].
  intros ->. unfold ArbitraryAsmEmitter.receive. cbn [fold_left].
  rewrite Hasm. split; reflexivity.
Qed.

End Successive.

(** The theorem at two probes of the session with sixteen bytes at 0x2000:
    0x2004 first, 0x2008 next. *)
Lemma X16_successive_decodes_do_not_mix_witness :
  let m1 := fst (ArbitraryManager.lift_insn (E := test_engine) (A := test_allocator)
                   manager_2000 0x2004) in
  exists d2,
    snd (ArbitraryManager.lift_insn (E := test_engine) (A := test_allocator)
           m1 0x2008) = Returns (Some d2)
    /\ InsnDesc.ops d2 = [exported_op (mkPcodeDump 0x2008 1 None [])]
    /\ InsnDesc.op_count d2 = 1.
Proof.
  cbv zeta.
  destruct (X16_successive_decodes_do_not_mix
              (E := test_engine) (A := test_allocator) manager_2000
              (fst (ArbitraryManager.lift_insn (E := test_engine)
                      (A := test_allocator) manager_2000 0x2004))
              0x2008 [0x2004; 0x2004; 0x2008] [mkAsmDump 0x2008 "nop" ""] 4
              [0x2004; 0x2004; 0x2008; 0x2008] [mkPcodeDump 0x2008 1 None []] 4)
    as (d2 & Hrun & Hops & Hcount & _).
  - right. eexists 0x2004, _. split; reflexivity.
  - reflexivity.
  - reflexivity.
  - exists d2. split; [exact Hrun|]. split; [exact Hops | exact Hcount].
Defined.

(** The theorem at a printed text with a NUL in its middle: three
    characters are kept, five are counted. *)
Lemma X12_text_length_covers_kept_text_witness :
  let text := String "a" (String "b" (String "c" (String NUL (String "d" EmptyString)))) in
  let em := ArbitraryAsmEmitter.dump
              (ArbitraryAsmEmitter.mk 0 0 None 0 None 0) 0x1000 text "" in
  exists t,
    ArbitraryAsmEmitter.insn_text em = Some t
    /\ Z.of_nat (String.length t) <= ArbitraryAsmEmitter.insn_text_len em
    /\ Z.of_nat (String.length t) <> ArbitraryAsmEmitter.insn_text_len em.
Proof.
  cbv zeta.
  destruct (X12_text_length_covers_kept_text
              (ArbitraryAsmEmitter.mk 0 0 None 0 None 0) 0x1000
              (String "a" (String "b" (String "c" (String NUL (String "d" EmptyString)))))
              "") as (t & Ht & Hle & Hiff).
  exists t. split; [exact Ht|]. split; [exact Hle|].
  intros Heq. apply Hiff in Heq. discriminate Heq.
Defined.

(** The theorem at the three-character name [ram] in a sixteen-character
    field. *)
Lemma X14_field_terminated_iff_name_shorter_witness :
  NUL ∈ strncpy (uninit_chars (A := test_allocator) 16) "ram" 16.
Proof.
  apply (proj2 (X14_field_terminated_iff_name_shorter test_allocator 16 "ram")).
  simpl. lia.
Defined.
